(** * A sliding-window API rate limiter

    Shallow embedding of [scripts/api_ratelimiter.py] (class [APIRateLimiter])
    and verification of its admission, pruning, recording and blocking-wait
    behaviour.

    Conventions of the embedding:
    - Python integers are [Z]; clock readings ([time.time()]) are taken on an
      integer clock whose unit is the time-unit of the windows;
    - a [deque] is a [list] whose head is the left end ([popleft] removes the
      head, [append] adds at the tail);
    - the methods run in a small state-and-exception monad over a [World]
      holding the limiter object, the clock, the sleeps performed, the
      re-entrant lock counter, and the accesses to mutable attributes that
      were made while the lock was not held. *)

From Stdlib Require Import ZArith List Bool String Lia Sorted QArith.
Import ListNotations.
Open Scope Z_scope.

(** ** The limiter object *)

Record APIRateLimiter : Type := mkAPIRateLimiter {
  name : string;
  (* configured limits *)
  requests_per_minute : Z;
  tokens_per_minute : Z;
  requests_per_day : Z;
  tokens_per_day : Z;
  (* usage tracking *)
  minute_requests : list Z;
  minute_tokens : list (Z * Z);
  day_requests : list Z;
  day_tokens : list (Z * Z);
  (* statistics *)
  total_requests : Z;
  total_tokens : Z;
  total_wait_time : Z;
  rate_limit_hits : Z
}.

(** Window sizes, assigned once by the constructor and never reassigned. *)
Definition minute_window : Z := 60.
Definition day_window : Z := 86400.

(** [__init__]: stores the arguments unchanged, without any validation. *)
Definition __init__ (nm : string) (rpm tpm rpd tpd : Z) : APIRateLimiter :=
  {| name := nm;
     requests_per_minute := rpm;
     tokens_per_minute := tpm;
     requests_per_day := rpd;
     tokens_per_day := tpd;
     minute_requests := [];
     minute_tokens := [];
     day_requests := [];
     day_tokens := [];
     total_requests := 0;
     total_tokens := 0;
     total_wait_time := 0;
     rate_limit_hits := 0 |}.

(** The constructor's default arguments. *)
Definition default_limiter : APIRateLimiter :=
  __init__ "default" 20 100000 10000 1000000.

(** ** The eight mutable attributes *)

Inductive field : Type :=
| F_minute_requests | F_minute_tokens | F_day_requests | F_day_tokens
| F_total_requests | F_total_tokens | F_total_wait_time | F_rate_limit_hits.

Definition field_type (f : field) : Type :=
  match f with
  | F_minute_requests | F_day_requests => list Z
  | F_minute_tokens | F_day_tokens => list (Z * Z)
  | _ => Z
  end.

Definition getattr (f : field) : APIRateLimiter -> field_type f :=
  match f as f0 return APIRateLimiter -> field_type f0 with
  | F_minute_requests => minute_requests
  | F_minute_tokens => minute_tokens
  | F_day_requests => day_requests
  | F_day_tokens => day_tokens
  | F_total_requests => total_requests
  | F_total_tokens => total_tokens
  | F_total_wait_time => total_wait_time
  | F_rate_limit_hits => rate_limit_hits
  end.

Definition setattr (f : field) : field_type f -> APIRateLimiter -> APIRateLimiter :=
  match f as f0 return field_type f0 -> APIRateLimiter -> APIRateLimiter with
  | F_minute_requests => fun v s =>
      mkAPIRateLimiter (name s) (requests_per_minute s) (tokens_per_minute s)
        (requests_per_day s) (tokens_per_day s)
        v (minute_tokens s) (day_requests s) (day_tokens s)
        (total_requests s) (total_tokens s) (total_wait_time s) (rate_limit_hits s)
  | F_minute_tokens => fun v s =>
      mkAPIRateLimiter (name s) (requests_per_minute s) (tokens_per_minute s)
        (requests_per_day s) (tokens_per_day s)
        (minute_requests s) v (day_requests s) (day_tokens s)
        (total_requests s) (total_tokens s) (total_wait_time s) (rate_limit_hits s)
  | F_day_requests => fun v s =>
      mkAPIRateLimiter (name s) (requests_per_minute s) (tokens_per_minute s)
        (requests_per_day s) (tokens_per_day s)
        (minute_requests s) (minute_tokens s) v (day_tokens s)
        (total_requests s) (total_tokens s) (total_wait_time s) (rate_limit_hits s)
  | F_day_tokens => fun v s =>
      mkAPIRateLimiter (name s) (requests_per_minute s) (tokens_per_minute s)
        (requests_per_day s) (tokens_per_day s)
        (minute_requests s) (minute_tokens s) (day_requests s) v
        (total_requests s) (total_tokens s) (total_wait_time s) (rate_limit_hits s)
  | F_total_requests => fun v s =>
      mkAPIRateLimiter (name s) (requests_per_minute s) (tokens_per_minute s)
        (requests_per_day s) (tokens_per_day s)
        (minute_requests s) (minute_tokens s) (day_requests s) (day_tokens s)
        v (total_tokens s) (total_wait_time s) (rate_limit_hits s)
  | F_total_tokens => fun v s =>
      mkAPIRateLimiter (name s) (requests_per_minute s) (tokens_per_minute s)
        (requests_per_day s) (tokens_per_day s)
        (minute_requests s) (minute_tokens s) (day_requests s) (day_tokens s)
        (total_requests s) v (total_wait_time s) (rate_limit_hits s)
  | F_total_wait_time => fun v s =>
      mkAPIRateLimiter (name s) (requests_per_minute s) (tokens_per_minute s)
        (requests_per_day s) (tokens_per_day s)
        (minute_requests s) (minute_tokens s) (day_requests s) (day_tokens s)
        (total_requests s) (total_tokens s) v (rate_limit_hits s)
  | F_rate_limit_hits => fun v s =>
      mkAPIRateLimiter (name s) (requests_per_minute s) (tokens_per_minute s)
        (requests_per_day s) (tokens_per_day s)
        (minute_requests s) (minute_tokens s) (day_requests s) (day_tokens s)
        (total_requests s) (total_tokens s) (total_wait_time s) v
  end.

(** ** The world the methods run in *)

Inductive access : Type := Read | Write.

Inductive exn : Type := IndexError.

Inductive outcome (A : Type) : Type :=
| Ok (a : A)
| Raise (e : exn).
Arguments Ok {A} a.
Arguments Raise {A} e.

Record World : Type := mkWorld {
  self : APIRateLimiter;
  (* the n-th call of [time.time()] returns [clock n] *)
  clock : nat -> Z;
  ticks : nat;
  (* arguments of the calls of [time.sleep], oldest first *)
  slept : list Z;
  (* acquisition depth of the re-entrant lock [self.lock] *)
  lock_count : nat;
  (* accesses to mutable attributes made while the lock was free, oldest first *)
  unlocked : list (field * access)
}.

Definition M (A : Type) : Type := World -> outcome A * World.

Definition ret {A} (a : A) : M A := fun w => (Ok a, w).

Definition raise {A} (e : exn) : M A := fun w => (Raise e, w).

Definition bind {A B} (m : M A) (k : A -> M B) : M B :=
  fun w =>
    match m w with
    | (Ok a, w') => k a w'
    | (Raise e, w') => (Raise e, w')
    end.

Notation "x <- m ;; k" := (bind m (fun x => k))
  (at level 61, m at next level, right associativity).
Notation "m ;; k" := (bind m (fun _ => k))
  (at level 61, right associativity).

Definition eval {A} (m : M A) (w : World) : outcome A := fst (m w).
Definition exec {A} (m : M A) (w : World) : World := snd (m w).

Definition with_self (s : APIRateLimiter) (w : World) : World :=
  mkWorld s (clock w) (ticks w) (slept w) (lock_count w) (unlocked w).

(** [time.time()] *)
Definition time_time : M Z :=
  fun w => (Ok (clock w (ticks w)),
            mkWorld (self w) (clock w) (S (ticks w)) (slept w) (lock_count w) (unlocked w)).

(** [time.sleep(d)] *)
Definition time_sleep (d : Z) : M unit :=
  fun w => (Ok tt,
            mkWorld (self w) (clock w) (ticks w) (slept w ++ [d]) (lock_count w) (unlocked w)).

(** Every access to a mutable attribute is noted when the lock is free. *)
Definition note (f : field) (k : access) : M unit :=
  fun w =>
    match lock_count w with
    | O => (Ok tt, mkWorld (self w) (clock w) (ticks w) (slept w) O (unlocked w ++ [(f, k)]))
    | S _ => (Ok tt, w)
    end.

(** Reading [self.f] *)
Definition load (f : field) : M (field_type f) :=
  note f Read ;; fun w => (Ok (getattr f (self w)), w).

(** Writing (or mutating in place) [self.f] *)
Definition store (f : field) (v : field_type f) : M unit :=
  note f Write ;; fun w => (Ok tt, with_self (setattr f v (self w)) w).

(** Reading one of the attributes fixed at construction. *)
Definition config {A} (proj : APIRateLimiter -> A) : M A :=
  fun w => (Ok (proj (self w)), w).

(** [with self.lock: body] -- the lock is released on normal exit and when
    the body raises. *)
Definition with_lock {A} (body : M A) : M A :=
  fun w =>
    let (r, w') :=
      body (mkWorld (self w) (clock w) (ticks w) (slept w) (S (lock_count w)) (unlocked w)) in
    (r, mkWorld (self w') (clock w') (ticks w') (slept w') (Nat.pred (lock_count w')) (unlocked w')).

(** ** Helpers on the logs *)

(** [while q and now - stamp(q[0]) > window: q.popleft()] *)
Fixpoint drop_expired {A} (stamp : A -> Z) (now window : Z) (q : list A) : list A :=
  match q with
  | [] => []
  | x :: rest =>
      if now - stamp x >? window then drop_expired stamp now window rest else q
  end.

(** [sum(tokens for _, tokens in q)] *)
Fixpoint sum_tokens (q : list (Z * Z)) : Z :=
  match q with
  | [] => 0
  | (_, tokens) :: rest => tokens + sum_tokens rest
  end.

(** [len(q)] *)
Definition len {A} (q : list A) : Z := Z.of_nat (List.length q).

(** [q[0]], raising [IndexError] on an empty deque. *)
Definition front {A} (q : list A) : M A :=
  match q with
  | [] => raise IndexError
  | x :: _ => ret x
  end.

(** ** The methods *)

(** [_clean_old_entries]: each of the four [while] loops is one read of its
    deque followed by the in-place removal of the expired front entries. *)
Definition _clean_old_entries : M unit :=
  now <- time_time ;;
  (* clean minute windows *)
  mr <- load F_minute_requests ;;
  store F_minute_requests (drop_expired (fun t => t) now minute_window mr) ;;
  mt <- load F_minute_tokens ;;
  store F_minute_tokens (drop_expired fst now minute_window mt) ;;
  (* clean day windows *)
  dr <- load F_day_requests ;;
  store F_day_requests (drop_expired (fun t => t) now day_window dr) ;;
  dt <- load F_day_tokens ;;
  store F_day_tokens (drop_expired fst now day_window dt).

(** The triple [(can_proceed, wait_time_seconds, limit_type)]. *)
Definition verdict : Type := (bool * Z * option string)%type.

(** [check_rate_limit]: the clock is read once by the pruning step and once
    more for [now]. *)
Definition check_rate_limit (tokens_estimate : Z) : M verdict :=
  with_lock (
    _clean_old_entries ;;
    now <- time_time ;;
    (* check minute request limit *)
    mr <- load F_minute_requests ;;
    rpm <- config requests_per_minute ;;
    if len mr >=? rpm then
      mr0 <- load F_minute_requests ;;
      oldest <- front mr0 ;;
      let wait_time := minute_window - (now - oldest) in
      ret (false, Z.max 0 wait_time, Some "requests_per_minute"%string)
    else
    (* check minute token limit *)
    mt <- load F_minute_tokens ;;
    let current_minute_tokens := sum_tokens mt in
    tpm <- config tokens_per_minute ;;
    if current_minute_tokens + tokens_estimate >? tpm then
      mt0 <- load F_minute_tokens ;;
      let oldest_token_time :=
        match mt0 with
        | e :: _ => fst e
        | [] => now
        end in
      let wait_time := minute_window - (now - oldest_token_time) in
      ret (false, Z.max 0 wait_time, Some "tokens_per_minute"%string)
    else
    (* check day request limit *)
    dr <- load F_day_requests ;;
    rpd <- config requests_per_day ;;
    if len dr >=? rpd then
      dr0 <- load F_day_requests ;;
      oldest <- front dr0 ;;
      let wait_time := day_window - (now - oldest) in
      ret (false, Z.max 0 wait_time, Some "requests_per_day"%string)
    else
    (* check day token limit *)
    dt <- load F_day_tokens ;;
    let current_day_tokens := sum_tokens dt in
    tpd <- config tokens_per_day ;;
    if current_day_tokens + tokens_estimate >? tpd then
      dt0 <- load F_day_tokens ;;
      let oldest_token_time :=
        match dt0 with
        | e :: _ => fst e
        | [] => now
        end in
      let wait_time := day_window - (now - oldest_token_time) in
      ret (false, Z.max 0 wait_time, Some "tokens_per_day"%string)
    else
      ret (true, 0, None)
  ).

(** [record_request]: [x += d] is a read of [x] followed by a write. *)
Definition record_request (tokens_used : Z) : M unit :=
  with_lock (
    now <- time_time ;;
    (* record in minute windows *)
    mr <- load F_minute_requests ;;
    store F_minute_requests (mr ++ [now]) ;;
    mt <- load F_minute_tokens ;;
    store F_minute_tokens (mt ++ [(now, tokens_used)]) ;;
    (* record in day windows *)
    dr <- load F_day_requests ;;
    store F_day_requests (dr ++ [now]) ;;
    dt <- load F_day_tokens ;;
    store F_day_tokens (dt ++ [(now, tokens_used)]) ;;
    (* update statistics *)
    n <- load F_total_requests ;;
    store F_total_requests (n + 1) ;;
    t <- load F_total_tokens ;;
    store F_total_tokens (t + tokens_used)
  ).

(** Maximum seconds to wait before giving up. *)
Definition max_wait_time : Z := 30.

(** [wait_if_needed]: the [while True] loop is unrolled at most [fuel] times;
    [None] is the answer of a run that is still looping when the fuel is
    spent. *)
Fixpoint wait_if_needed (fuel : nat) (tokens_estimate : Z) : M (option bool) :=
  match fuel with
  | O => ret None
  | S fuel' =>
      v <- check_rate_limit tokens_estimate ;;
      let '(can_proceed, wait_time, _) := v in
      if can_proceed then ret (Some true)
      else if wait_time >? max_wait_time then
        h <- load F_rate_limit_hits ;;
        store F_rate_limit_hits (h + 1) ;;
        ret (Some false)
      else
        (* wait and try again *)
        tw <- load F_total_wait_time ;;
        store F_total_wait_time (tw + wait_time) ;;
        h <- load F_rate_limit_hits ;;
        store F_rate_limit_hits (h + 1) ;;
        time_sleep wait_time ;;
        wait_if_needed fuel' tokens_estimate
  end.

(** The dictionary returned by [get_usage_stats].  The two percentages are
    the exact quotients; ["timestamp"] holds the clock reading that the
    source renders in ISO format. *)
Record usage_stats : Type := mkUsageStats {
  stats_name : string;
  current_minute_requests : Z;
  current_minute_tokens : Z;
  current_day_requests : Z;
  current_day_tokens : Z;
  stats_total_requests : Z;
  stats_total_tokens : Z;
  stats_rate_limit_hits : Z;
  stats_total_wait_time : Z;
  minute_limit_percentage : Q;
  day_limit_percentage : Q;
  timestamp : Z
}.

Definition percentage (n limit : Z) : Q :=
  if limit >? 0 then (inject_Z n / inject_Z limit * inject_Z 100)%Q else 0%Q.

Definition get_usage_stats : M usage_stats :=
  with_lock (
    _clean_old_entries ;;
    nm <- config name ;;
    mr <- load F_minute_requests ;;
    mt <- load F_minute_tokens ;;
    dr <- load F_day_requests ;;
    dt <- load F_day_tokens ;;
    n <- load F_total_requests ;;
    t <- load F_total_tokens ;;
    h <- load F_rate_limit_hits ;;
    tw <- load F_total_wait_time ;;
    mr' <- load F_minute_requests ;;
    rpm <- config requests_per_minute ;;
    dr' <- load F_day_requests ;;
    rpd <- config requests_per_day ;;
    ts <- time_time ;;
    ret (mkUsageStats nm (len mr) (sum_tokens mt) (len dr) (sum_tokens dt)
           n t h tw (percentage (len mr') rpm) (percentage (len dr') rpd) ts)
  ).

(** A world around a limiter: given clock, nothing slept, lock free. *)
Definition world_of (s : APIRateLimiter) (clk : nat -> Z) : World :=
  mkWorld s clk O [] O [].

(** ** Pure descriptions of the methods' effects *)

(** The limiter after [_clean_old_entries] has read [now] from the clock. *)
Definition pruned (now : Z) (s : APIRateLimiter) : APIRateLimiter :=
  mkAPIRateLimiter (name s) (requests_per_minute s) (tokens_per_minute s)
    (requests_per_day s) (tokens_per_day s)
    (drop_expired (fun t => t) now minute_window (minute_requests s))
    (drop_expired fst now minute_window (minute_tokens s))
    (drop_expired (fun t => t) now day_window (day_requests s))
    (drop_expired fst now day_window (day_tokens s))
    (total_requests s) (total_tokens s) (total_wait_time s) (rate_limit_hits s).

(** The limiter after [record_request] has read [now] from the clock. *)
Definition recorded (now tokens_used : Z) (s : APIRateLimiter) : APIRateLimiter :=
  mkAPIRateLimiter (name s) (requests_per_minute s) (tokens_per_minute s)
    (requests_per_day s) (tokens_per_day s)
    (minute_requests s ++ [now])
    (minute_tokens s ++ [(now, tokens_used)])
    (day_requests s ++ [now])
    (day_tokens s ++ [(now, tokens_used)])
    (total_requests s + 1) (total_tokens s + tokens_used)
    (total_wait_time s) (rate_limit_hits s).

(** Oldest stamp of a log, or [dflt] when the log is empty. *)
Definition oldest_or {A} (stamp : A -> Z) (dflt : Z) (q : list A) : Z :=
  match q with
  | x :: _ => stamp x
  | [] => dflt
  end.

(** The four gates of [check_rate_limit], on an already pruned limiter. *)
Definition gates (now tokens_estimate : Z) (s : APIRateLimiter) : outcome verdict :=
  if len (minute_requests s) >=? requests_per_minute s then
    match minute_requests s with
    | [] => Raise IndexError
    | oldest :: _ =>
        Ok (false, Z.max 0 (minute_window - (now - oldest)), Some "requests_per_minute"%string)
    end
  else if sum_tokens (minute_tokens s) + tokens_estimate >? tokens_per_minute s then
    Ok (false, Z.max 0 (minute_window - (now - oldest_or fst now (minute_tokens s))),
        Some "tokens_per_minute"%string)
  else if len (day_requests s) >=? requests_per_day s then
    match day_requests s with
    | [] => Raise IndexError
    | oldest :: _ =>
        Ok (false, Z.max 0 (day_window - (now - oldest)), Some "requests_per_day"%string)
    end
  else if sum_tokens (day_tokens s) + tokens_estimate >? tokens_per_day s then
    Ok (false, Z.max 0 (day_window - (now - oldest_or fst now (day_tokens s))),
        Some "tokens_per_day"%string)
  else Ok (true, 0, None).

(** ** Derived notions used in the statements *)

(** The dictionary built by [get_usage_stats] from a pruned limiter. *)
Definition snapshot (ts : Z) (s : APIRateLimiter) : usage_stats :=
  mkUsageStats (name s)
    (len (minute_requests s)) (sum_tokens (minute_tokens s))
    (len (day_requests s)) (sum_tokens (day_tokens s))
    (total_requests s) (total_tokens s) (rate_limit_hits s) (total_wait_time s)
    (percentage (len (minute_requests s)) (requests_per_minute s))
    (percentage (len (day_requests s)) (requests_per_day s))
    ts.

(** One turn of the loop of [wait_if_needed], after the admission check. *)
Definition after_check (fuel : nat) (tokens_estimate : Z) (v : verdict) : M (option bool) :=
  let '(can_proceed, wait_time, _) := v in
  if can_proceed then ret (Some true)
  else if wait_time >? max_wait_time then
    h <- load F_rate_limit_hits ;;
    store F_rate_limit_hits (h + 1) ;;
    ret (Some false)
  else
    tw <- load F_total_wait_time ;;
    store F_total_wait_time (tw + wait_time) ;;
    h <- load F_rate_limit_hits ;;
    store F_rate_limit_hits (h + 1) ;;
    time_sleep wait_time ;;
    wait_if_needed fuel tokens_estimate.

(** [m] is what remains of [d] after removing entries from its front. *)
Definition is_suffix {A} (m d : list A) : Prop := exists pre, d = pre ++ m.

(** The entries of a log come in non-decreasing stamp order. *)
Definition ascending {A} (stamp : A -> Z) (q : list A) : Prop :=
  StronglySorted (fun a b => stamp a <= stamp b) q.

(** The entry is no older than [window] at time [now]. *)
Definition in_window {A} (stamp : A -> Z) (now window : Z) (x : A) : bool :=
  now - stamp x <=? window.

(** The four logs of a limiter are in ascending stamp order. *)
Definition ascending_logs (s : APIRateLimiter) : Prop :=
  ascending (fun t => t) (minute_requests s)
  /\ ascending fst (minute_tokens s)
  /\ ascending (fun t => t) (day_requests s)
  /\ ascending fst (day_tokens s).

(** A ceiling of zero or below, or a negative estimate. *)
Definition misconfigured (rpm tpm rpd tpd est : Z) : Prop :=
  rpm <= 0 \/ tpm <= 0 \/ rpd <= 0 \/ tpd <= 0 \/ est < 0.

(** Two callers in the give-up branch of [wait_if_needed], each running
    [self.rate_limit_hits += 1] as a read followed by a write, scheduled so
    that both reads come before both writes. *)
Definition two_hits_interleaved : M unit :=
  h1 <- load F_rate_limit_hits ;;
  h2 <- load F_rate_limit_hits ;;
  store F_rate_limit_hits (h1 + 1) ;;
  store F_rate_limit_hits (h2 + 1).

(** Two limiters hold the same four logs. *)
Definition same_logs (s s' : APIRateLimiter) : Prop :=
  minute_requests s' = minute_requests s
  /\ minute_tokens s' = minute_tokens s
  /\ day_requests s' = day_requests s
  /\ day_tokens s' = day_tokens s.



(** The public operations, as a caller issues them. *)
Inductive call : Type :=
| CallCheck (tokens_estimate : Z)
| CallWait (fuel : nat) (tokens_estimate : Z)
| CallRecord (tokens_used : Z)
| CallStats.

(** Issuing a call, its result dropped. *)
Definition perform (c : call) : M unit :=
  match c with
  | CallCheck est => check_rate_limit est ;; ret tt
  | CallWait fuel est => wait_if_needed fuel est ;; ret tt
  | CallRecord tokens_used => record_request tokens_used
  | CallStats => get_usage_stats ;; ret tt
  end.

(** Token counts reported to [record_request] are not negative. *)
Definition counts_tokens (c : call) : Prop :=
  match c with
  | CallRecord tokens_used => 0 <= tokens_used
  | _ => True
  end.

(** A history of calls, issued one after the other; a caller that meets an
    exception goes on with the next call. *)
Fixpoint run_calls (cs : list call) (w : World) : World :=
  match cs with
  | [] => w
  | c :: rest => run_calls rest (exec (perform c) w)
  end.

(** The clock never runs backwards. *)
Definition non_decreasing (clk : nat -> Z) : Prop :=
  forall i j : nat, (i <= j)%nat -> clk i <= clk j.

(** The log is ascending and none of its stamps is ahead of a reading the
    clock has yet to give. *)
Definition log_on_time {A} (stamp : A -> Z) (clk : nat -> Z) (n : nat) (q : list A) : Prop :=
  ascending stamp q
  /\ forall j : nat, (n <= j)%nat -> Forall (fun x => stamp x <= clk j) q.

(** The four logs of the world's limiter are on time. *)
Definition on_time (w : World) : Prop :=
  log_on_time (fun t => t) (clock w) (ticks w) (minute_requests (self w))
  /\ log_on_time fst (clock w) (ticks w) (minute_tokens (self w))
  /\ log_on_time (fun t => t) (clock w) (ticks w) (day_requests (self w))
  /\ log_on_time fst (clock w) (ticks w) (day_tokens (self w)).

(** ** Notions used for the further properties *)

(** [self.rate_limit_hits += 1], outside any [with self.lock] block. *)
Definition count_hit : M unit :=
  h <- load F_rate_limit_hits ;;
  store F_rate_limit_hits (h + 1).

(** [self.total_wait_time += wait_time], outside any [with self.lock] block. *)
Definition add_wait (wait_time : Z) : M unit :=
  tw <- load F_total_wait_time ;;
  store F_total_wait_time (tw + wait_time).

(** All four quotas have room for a call of [tokens_estimate] tokens. *)
Definition has_room (tokens_estimate : Z) (s : APIRateLimiter) : Prop :=
  len (minute_requests s) < requests_per_minute s
  /\ sum_tokens (minute_tokens s) + tokens_estimate <= tokens_per_minute s
  /\ len (day_requests s) < requests_per_day s
  /\ sum_tokens (day_tokens s) + tokens_estimate <= tokens_per_day s.

(** No window holds more than its ceiling. *)
Definition within_limits (s : APIRateLimiter) : Prop :=
  len (minute_requests s) <= requests_per_minute s
  /\ sum_tokens (minute_tokens s) <= tokens_per_minute s
  /\ len (day_requests s) <= requests_per_day s
  /\ sum_tokens (day_tokens s) <= tokens_per_day s.

(** Sum of a list of integers. *)
Definition total_of (l : list Z) : Z := fold_right Z.add 0 l.

(** The token counts a history hands to [record_request], in order. *)
Fixpoint records_of (cs : list call) : list Z :=
  match cs with
  | [] => []
  | CallRecord tokens_used :: rest => tokens_used :: records_of rest
  | _ :: rest => records_of rest
  end.

(** The request logs carry the stamps of the token logs, in the same order. *)
Definition logs_aligned (s : APIRateLimiter) : Prop :=
  map fst (minute_tokens s) = minute_requests s
  /\ map fst (day_tokens s) = day_requests s.

(** The lifetime totals and the day-token log agree with the token counts
    [pre] recorded so far: one request and its tokens per count, and the log
    holds the most recent of them, in order. *)
Definition booked (pre : list Z) (s : APIRateLimiter) : Prop :=
  total_requests s = len pre
  /\ total_tokens s = total_of pre
  /\ is_suffix (map snd (day_tokens s)) pre.

(** No stamp of the four logs is ahead of [now]. *)
Definition stamps_before (now : Z) (s : APIRateLimiter) : Prop :=
  Forall (fun t => t <= now) (minute_requests s)
  /\ Forall (fun e => fst e <= now) (minute_tokens s)
  /\ Forall (fun t => t <= now) (day_requests s)
  /\ Forall (fun e => fst e <= now) (day_tokens s).

(** ** Run equations of the methods *)

Ltac run_monad :=
  cbv beta iota zeta delta
    [bind ret raise eval exec fst snd with_self time_time time_sleep note load store
     config with_lock front getattr setattr Nat.pred
     self clock ticks slept lock_count unlocked
     name requests_per_minute tokens_per_minute requests_per_day tokens_per_day
     minute_requests minute_tokens day_requests day_tokens
     total_requests total_tokens total_wait_time rate_limit_hits].

Lemma clean_locked_run (s : APIRateLimiter) clk n sl k u :
  _clean_old_entries (mkWorld s clk n sl (S k) u)
  = (Ok tt, mkWorld (pruned (clk n) s) clk (S n) sl (S k) u).
Proof. destruct s. reflexivity. Qed.

Lemma check_rate_limit_run (est : Z) (w : World) :
  check_rate_limit est w
  = (gates (clock w (S (ticks w))) est (pruned (clock w (ticks w)) (self w)),
     mkWorld (pruned (clock w (ticks w)) (self w)) (clock w) (S (S (ticks w)))
       (slept w) (lock_count w) (unlocked w)).
Proof.
  destruct w as [s clk n sl k u].
  unfold check_rate_limit, with_lock.
  unfold bind at 1. rewrite clean_locked_run.
  unfold gates. destruct s. unfold pruned. run_monad.
  repeat match goal with
         | |- context [if ?c then _ else _] => destruct c
         | |- context [match ?l with [] => _ | _ :: _ => _ end] => destruct l
         end; reflexivity.
Qed.

Lemma clean_self (w : World) :
  self (exec _clean_old_entries w) = pruned (clock w (ticks w)) (self w).
Proof. destruct w as [s clk n sl [|k] u]; destruct s; reflexivity. Qed.

Lemma record_request_run (tokens_used : Z) (w : World) :
  record_request tokens_used w
  = (Ok tt,
     mkWorld (recorded (clock w (ticks w)) tokens_used (self w)) (clock w) (S (ticks w))
       (slept w) (lock_count w) (unlocked w)).
Proof. destruct w as [s clk n sl k u]; destruct s; reflexivity. Qed.

Lemma get_usage_stats_run (w : World) :
  get_usage_stats w
  = (Ok (snapshot (clock w (S (ticks w))) (pruned (clock w (ticks w)) (self w))),
     mkWorld (pruned (clock w (ticks w)) (self w)) (clock w) (S (S (ticks w)))
       (slept w) (lock_count w) (unlocked w)).
Proof.
  destruct w as [s clk n sl k u].
  unfold get_usage_stats, with_lock.
  unfold bind at 1. rewrite clean_locked_run.
  destruct s; reflexivity.
Qed.

Lemma wait_if_needed_unfold (fuel : nat) (est : Z) :
  wait_if_needed (S fuel) est = (v <- check_rate_limit est ;; after_check fuel est v).
Proof. reflexivity. Qed.

Lemma wait_if_needed_run (fuel : nat) (est : Z) (w : World) :
  wait_if_needed (S fuel) est w
  = match eval (check_rate_limit est) w with
    | Ok v => after_check fuel est v (exec (check_rate_limit est) w)
    | Raise e => (Raise e, exec (check_rate_limit est) w)
    end.
Proof.
  rewrite wait_if_needed_unfold. unfold bind, eval, exec.
  destruct (check_rate_limit est w) as [[v|e] w']; reflexivity.
Qed.

(** ** Facts on the logs *)

Section Logs.
Context {A : Type}.
Variable stamp : A -> Z.

Lemma is_suffix_refl (q : list A) : is_suffix q q.
Proof. exists []; reflexivity. Qed.

Lemma is_suffix_trans (a b c : list A) :
  is_suffix a b -> is_suffix b c -> is_suffix a c.
Proof.
  intros [p ->] [p' ->]. exists (p' ++ p). now rewrite app_assoc.
Qed.

Lemma is_suffix_cons (x : A) (m d : list A) :
  is_suffix m d -> is_suffix m (x :: d).
Proof. intros [p ->]. now exists (x :: p). Qed.

Lemma is_suffix_snoc (x : A) (m d : list A) :
  is_suffix m d -> is_suffix (m ++ [x]) (d ++ [x]).
Proof. intros [p ->]. exists p. now rewrite app_assoc. Qed.

Lemma is_suffix_length (m d : list A) : is_suffix m d -> len m <= len d.
Proof.
  intros [p ->]. unfold len. rewrite length_app. lia.
Qed.

Lemma is_suffix_Forall (P : A -> Prop) (m d : list A) :
  is_suffix m d -> Forall P d -> Forall P m.
Proof. intros [p ->] H. now apply Forall_app in H. Qed.

Lemma drop_expired_suffix (now window : Z) (q : list A) :
  is_suffix (drop_expired stamp now window q) q.
Proof.
  induction q as [|x q IH]; simpl.
  - apply is_suffix_refl.
  - destruct (now - stamp x >? window).
    + now apply is_suffix_cons.
    + apply is_suffix_refl.
Qed.


Lemma filter_all (p : A -> bool) (q : list A) :
  Forall (fun x => p x = true) q -> filter p q = q.
Proof.
  induction 1 as [|x q Hx _ IH]; simpl; [reflexivity|].
  now rewrite Hx, IH.
Qed.

(** On an ascending log, popping expired entries from the front keeps
    exactly the entries inside the window. *)
Lemma drop_expired_filter (now window : Z) (q : list A) :
  ascending stamp q ->
  drop_expired stamp now window q = filter (in_window stamp now window) q.
Proof.
  unfold ascending, in_window.
  induction 1 as [|x q Hq IH Hx]; simpl; [reflexivity|].
  destruct (Z.gtb_spec (now - stamp x) window) as [Hgt|Hle].
  - destruct (Z.leb_spec (now - stamp x) window) as [Hc|_]; [lia | exact IH].
  - destruct (Z.leb_spec (now - stamp x) window) as [_|Hc]; [|lia].
    f_equal. symmetry. apply filter_all.
    eapply Forall_impl; [|exact Hx]. simpl. intros y Hy.
    apply Z.leb_le. lia.
Qed.

Lemma ascending_suffix (m d : list A) :
  is_suffix m d -> ascending stamp d -> ascending stamp m.
Proof.
  intros [pre ->]. unfold ascending.
  induction pre as [|a pre IH]; simpl; intros H; [exact H|].
  apply IH. now inversion H.
Qed.

Lemma ascending_drop_expired (now window : Z) (q : list A) :
  ascending stamp q -> ascending stamp (drop_expired stamp now window q).
Proof. apply ascending_suffix, drop_expired_suffix. Qed.

Lemma ascending_snoc (x : A) (q : list A) :
  ascending stamp q ->
  Forall (fun y => stamp y <= stamp x) q ->
  ascending stamp (q ++ [x]).
Proof.
  unfold ascending.
  induction 1 as [|y q Hq IH Hy]; simpl; intros Hall.
  - constructor; constructor.
  - inversion Hall as [|? ? Hyx Hall']; subst.
    constructor.
    + now apply IH.
    + apply Forall_app. split; [exact Hy | now constructor].
Qed.
End Logs.

Lemma sum_tokens_app (p q : list (Z * Z)) :
  sum_tokens (p ++ q) = sum_tokens p + sum_tokens q.
Proof.
  induction p as [|[t n] p IH]; simpl; [reflexivity | lia].
Qed.



(** ** Admission check *)

Lemma check_rate_limit_eval (est : Z) (w : World) :
  eval (check_rate_limit est) w
  = gates (clock w (S (ticks w))) est (pruned (clock w (ticks w)) (self w)).
Proof. unfold eval. now rewrite check_rate_limit_run. Qed.

Lemma check_rate_limit_self (est : Z) (w : World) :
  self (exec (check_rate_limit est) w) = pruned (clock w (ticks w)) (self w).
Proof. unfold exec. now rewrite check_rate_limit_run. Qed.

(** What the minute-token gate answers once the minute-request gate has let
    the call through. *)
Lemma minute_token_gate (now est : Z) (s : APIRateLimiter) :
  len (minute_requests s) < requests_per_minute s ->
  sum_tokens (minute_tokens s) + est > tokens_per_minute s ->
  gates now est s
  = Ok (false, Z.max 0 (minute_window - (now - oldest_or fst now (minute_tokens s))),
        Some "tokens_per_minute"%string).
Proof.
  intros Hreq Htok. unfold gates.
  destruct (Z.geb_spec (len (minute_requests s)) (requests_per_minute s)); [lia|].
  destruct (Z.gtb_spec (sum_tokens (minute_tokens s) + est) (tokens_per_minute s)); [|lia].
  reflexivity.
Qed.

(** C1, as stated, fails: a limiter that has recorded nothing and is asked
    for more tokens than its per-minute ceiling rejects on the minute-token
    gate with an empty minute-token log, and the wait it returns is the whole
    window, 60, not 0. *)
Lemma minute_token_wait_empty_log_counterexample :
  ~ (forall (w : World) (est wait : Z),
        eval (check_rate_limit est) w = Ok (false, wait, Some "tokens_per_minute"%string) ->
        minute_tokens (self (exec (check_rate_limit est) w)) = [] ->
        wait = 0).
Proof.
  intros H.
  specialize (H (world_of (__init__ "m" 20 100 10000 1000000) (fun _ => 5)) 200 60).
  assert (E : 60 = 0) by (apply H; reflexivity).
  discriminate E.
Qed.

(** C1 (amended): when [check_rate_limit] rejects on the minute-token gate
    (the minute-request gate passes and the in-window token sum plus the
    estimate strictly exceeds [tokens_per_minute]), the limit kind is
    [tokens_per_minute] and the wait is 60 when the pruned minute-token log
    is empty, and 60 - (now - oldest stamp of that log), floored at 0, when
    it is not. *)
Theorem minute_token_gate_wait (w : World) (est : Z) :
  let s' := self (exec (check_rate_limit est) w) in
  let now := clock w (S (ticks w)) in
  len (minute_requests s') < requests_per_minute s' ->
  sum_tokens (minute_tokens s') + est > tokens_per_minute s' ->
  eval (check_rate_limit est) w
  = Ok (false,
        match minute_tokens s' with
        | [] => 60
        | (oldest, _) :: _ => Z.max 0 (60 - (now - oldest))
        end,
        Some "tokens_per_minute"%string).
Proof.
  intros s' now. subst s'. rewrite check_rate_limit_self, check_rate_limit_eval.
  intros Hreq Htok. rewrite (minute_token_gate _ _ _ Hreq Htok).
  fold now. unfold minute_window.
  destruct (minute_tokens (pruned (clock w (ticks w)) (self w))) as [|[oldest n] q];
    unfold oldest_or.
  - rewrite Z.sub_diag. reflexivity.
  - reflexivity.
Qed.

Lemma minute_token_gate_wait_witness :
  eval (check_rate_limit 30)
    (exec (record_request 480) (world_of (__init__ "m" 2 500 10000 1000000) (fun n => Z.of_nat n)))
  = Ok (false, 58, Some "tokens_per_minute"%string)
  /\ eval (check_rate_limit 200) (world_of (__init__ "m" 20 100 10000 1000000) (fun _ => 5))
     = Ok (false, 60, Some "tokens_per_minute"%string).
Proof.
  split.
  - apply (minute_token_gate_wait
             (exec (record_request 480)
                (world_of (__init__ "m" 2 500 10000 1000000) (fun n => Z.of_nat n))) 30);
      vm_compute; reflexivity.
  - apply (minute_token_gate_wait
             (world_of (__init__ "m" 20 100 10000 1000000) (fun _ => 5)) 200);
      vm_compute; reflexivity.
Defined.

(** C2: on a limiter built with a per-minute request ceiling of 0 that has
    recorded nothing, [check_rate_limit] does not return a rejection: the
    gate [len(minute_requests) >= 0] is taken and [minute_requests[0]] raises
    [IndexError] on the empty log. *)
Theorem zero_request_ceiling_raises (nm : string) (tpm rpd tpd est : Z) (clk : nat -> Z) :
  eval (check_rate_limit est) (world_of (__init__ nm 0 tpm rpd tpd) clk) = Raise IndexError.
Proof. reflexivity. Qed.

(** With a ceiling of 0 and a request still inside the window, the same gate
    rejects as the claim says. *)
Lemma zero_request_ceiling_rejects (w : World) (est : Z) :
  requests_per_minute (self w) = 0 ->
  minute_requests (self (exec (check_rate_limit est) w)) <> [] ->
  exists wait, 0 <= wait /\
    eval (check_rate_limit est) w = Ok (false, wait, Some "requests_per_minute"%string).
Proof.
  rewrite check_rate_limit_self, check_rate_limit_eval.
  intros Hz Hne. unfold gates.
  destruct (pruned (clock w (ticks w)) (self w)) eqn:E.
  assert (Hr : requests_per_minute0 = 0).
  { rewrite <- Hz. change requests_per_minute0 with
      (requests_per_minute (mkAPIRateLimiter name0 requests_per_minute0 tokens_per_minute0
         requests_per_day0 tokens_per_day0 minute_requests0 minute_tokens0 day_requests0
         day_tokens0 total_requests0 total_tokens0 total_wait_time0 rate_limit_hits0)).
    rewrite <- E. reflexivity. }
  simpl in *. subst requests_per_minute0.
  destruct (Z.geb_spec (len minute_requests0) 0) as [_|Hlt].
  - destruct minute_requests0 as [|oldest q]; [congruence|].
    eexists. split; [|reflexivity]. lia.
  - unfold len in Hlt. lia.
Qed.

(** The minute-token gate is the only one that answers [tokens_per_minute],
    and it does so only for a sum strictly above the ceiling. *)
Lemma minute_token_gate_strict (now est wait : Z) (s : APIRateLimiter) :
  gates now est s = Ok (false, wait, Some "tokens_per_minute"%string) ->
  sum_tokens (minute_tokens s) + est > tokens_per_minute s.
Proof.
  unfold gates.
  destruct (len (minute_requests s) >=? requests_per_minute s).
  { destruct (minute_requests s); discriminate. }
  destruct (Z.gtb_spec (sum_tokens (minute_tokens s) + est) (tokens_per_minute s)) as [H|_].
  { intros _. lia. }
  destruct (len (day_requests s) >=? requests_per_day s).
  { destruct (day_requests s); discriminate. }
  destruct (sum_tokens (day_tokens s) + est >? tokens_per_day s); discriminate.
Qed.

(** C3: with [tokens_per_minute = 500] and one call of 480 tokens recorded
    and still inside the minute window (the other three ceilings generous),
    [check_rate_limit 30] rejects with kind [tokens_per_minute] and a later
    [check_rate_limit 20] admits: 480 + 20 = 500 passes the gate.  In any
    world the gate rejects with that kind only when the in-window sum plus
    the estimate is strictly above the ceiling. *)
Theorem token_gate_boundary_scenario (nm : string) (rpm rpd tpd : Z) (clk : nat -> Z) :
  1 < rpm -> 1 < rpd -> 500 <= tpd ->
  clk 1%nat - clk 0%nat <= 60 -> clk 3%nat - clk 0%nat <= 60 ->
  let w1 := exec (record_request 480) (world_of (__init__ nm rpm 500 rpd tpd) clk) in
  eval (check_rate_limit 30) w1
  = Ok (false, Z.max 0 (60 - (clk 2%nat - clk 0%nat)), Some "tokens_per_minute"%string)
  /\ eval (check_rate_limit 20) (exec (check_rate_limit 30) w1) = Ok (true, 0, None)
  /\ (forall (w : World) (est wait : Z),
         eval (check_rate_limit est) w = Ok (false, wait, Some "tokens_per_minute"%string) ->
         let s' := self (exec (check_rate_limit est) w) in
         sum_tokens (minute_tokens s') + est > tokens_per_minute s').
Proof.
  intros Hrpm Hrpd Htpd H1 H3 w1. subst w1.
  split; [|split].
  3: { intros w est wait. rewrite check_rate_limit_eval, check_rate_limit_self.
       apply minute_token_gate_strict. }
  all: unfold exec; rewrite record_request_run;
    rewrite ?check_rate_limit_eval, ?check_rate_limit_run;
    cbn [self clock ticks world_of snd]; unfold pruned, recorded, __init__; simpl;
    unfold minute_window, day_window;
    destruct (Z.gtb_spec (clk 1%nat - clk 0%nat) 60) as [?|_]; try lia;
    destruct (Z.gtb_spec (clk 1%nat - clk 0%nat) 86400) as [?|_]; try lia;
    simpl;
    try (destruct (Z.gtb_spec (clk 3%nat - clk 0%nat) 60) as [?|_]; [lia|]);
    try (destruct (Z.gtb_spec (clk 3%nat - clk 0%nat) 86400) as [?|_]; [lia|]);
    unfold gates, len; simpl;
    destruct (Z.geb_spec 1 rpm) as [?|_]; try lia;
    try (destruct (Z.geb_spec 1 rpd) as [?|_]; [lia|]);
    try (destruct (Z.gtb_spec 500 tpd) as [?|_]; [lia|]);
    reflexivity.
Qed.

Lemma token_gate_boundary_scenario_witness :
  let w1 := exec (record_request 480)
              (world_of (__init__ "claude" 20 500 10000 1000000) (fun n => Z.of_nat n)) in
  eval (check_rate_limit 30) w1 = Ok (false, 58, Some "tokens_per_minute"%string)
  /\ eval (check_rate_limit 20) (exec (check_rate_limit 30) w1) = Ok (true, 0, None).
Proof.
  destruct (token_gate_boundary_scenario "claude" 20 10000 1000000 (fun n => Z.of_nat n))
    as (H30 & H20 & _); try (vm_compute; congruence).
  split; [exact H30 | exact H20].
Defined.

(** C6: admission is monotone in the token estimate: from the same world, a
    call admitted with estimate [E] is admitted with every smaller estimate. *)
Theorem admission_monotone (w : World) (E E' wait : Z) (kind : option string) :
  E' < E ->
  eval (check_rate_limit E) w = Ok (true, wait, kind) ->
  eval (check_rate_limit E') w = Ok (true, 0, None).
Proof.
  intros Hlt. rewrite !check_rate_limit_eval.
  generalize (pruned (clock w (ticks w)) (self w)) as s.
  generalize (clock w (S (ticks w))) as now.
  intros now s. unfold gates.
  destruct (len (minute_requests s) >=? requests_per_minute s).
  { destruct (minute_requests s); discriminate. }
  destruct (Z.gtb_spec (sum_tokens (minute_tokens s) + E) (tokens_per_minute s));
    [discriminate|].
  destruct (Z.gtb_spec (sum_tokens (minute_tokens s) + E') (tokens_per_minute s)); [lia|].
  destruct (len (day_requests s) >=? requests_per_day s).
  { destruct (day_requests s); discriminate. }
  destruct (Z.gtb_spec (sum_tokens (day_tokens s) + E) (tokens_per_day s)); [discriminate|].
  destruct (Z.gtb_spec (sum_tokens (day_tokens s) + E') (tokens_per_day s)); [lia|].
  reflexivity.
Qed.

Lemma admission_monotone_witness :
  eval (check_rate_limit 20)
    (exec (record_request 480) (world_of (__init__ "m" 2 500 10000 1000000) (fun n => Z.of_nat n)))
  = Ok (true, 0, None)
  /\ eval (check_rate_limit 7)
    (exec (record_request 480) (world_of (__init__ "m" 2 500 10000 1000000) (fun n => Z.of_nat n)))
  = Ok (true, 0, None).
Proof.
  split; [reflexivity|].
  apply (admission_monotone
           (exec (record_request 480)
              (world_of (__init__ "m" 2 500 10000 1000000) (fun n => Z.of_nat n)))
           20 7 0 None); reflexivity.
Defined.

(** C7: [check_rate_limit] changes the limiter only by pruning: the limiter
    it leaves is the one [_clean_old_entries] alone leaves, every log is what
    remains of the former log after removals at the front (nothing is
    appended), and the four lifetime counters, the four ceilings and the name
    are unchanged; nothing is slept either. *)
Theorem check_rate_limit_frame (w : World) (est : Z) :
  let s := self w in
  let s' := self (exec (check_rate_limit est) w) in
  s' = self (exec _clean_old_entries w)
  /\ (is_suffix (minute_requests s') (minute_requests s)
      /\ is_suffix (minute_tokens s') (minute_tokens s)
      /\ is_suffix (day_requests s') (day_requests s)
      /\ is_suffix (day_tokens s') (day_tokens s))
  /\ (total_requests s' = total_requests s
      /\ total_tokens s' = total_tokens s
      /\ total_wait_time s' = total_wait_time s
      /\ rate_limit_hits s' = rate_limit_hits s)
  /\ (requests_per_minute s' = requests_per_minute s
      /\ tokens_per_minute s' = tokens_per_minute s
      /\ requests_per_day s' = requests_per_day s
      /\ tokens_per_day s' = tokens_per_day s)
  /\ name s' = name s
  /\ slept (exec (check_rate_limit est) w) = slept w.
Proof.
  intros s s'. subst s s'.
  rewrite check_rate_limit_self, clean_self.
  unfold exec. rewrite check_rate_limit_run. unfold pruned; simpl.
  repeat split; apply drop_expired_suffix.
Qed.

(** Recording is the operation that appends: one entry at the tail of each
    of the four logs. *)
Lemma record_request_appends (w : World) (tokens_used : Z) :
  let now := clock w (ticks w) in
  let s := self w in
  let s' := self (exec (record_request tokens_used) w) in
  minute_requests s' = minute_requests s ++ [now]
  /\ minute_tokens s' = minute_tokens s ++ [(now, tokens_used)]
  /\ day_requests s' = day_requests s ++ [now]
  /\ day_tokens s' = day_tokens s ++ [(now, tokens_used)]
  /\ total_requests s' = total_requests s + 1
  /\ total_tokens s' = total_tokens s + tokens_used.
Proof.
  unfold exec. rewrite record_request_run. simpl. repeat split.
Qed.

(** ** Blocking wait *)

(** C4: when the first admission check admits, [wait_if_needed] returns
    [True] without sleeping and without counting a hit; when it rejects with
    a wait above the 30-unit ceiling, [wait_if_needed] returns [False]
    without sleeping and [rate_limit_hits] grows by exactly one.  In both
    cases [total_wait_time] is unchanged. *)
Theorem wait_if_needed_first_attempt
    (fuel : nat) (est : Z) (w : World) (can : bool) (wait : Z) (kind : option string) :
  eval (check_rate_limit est) w = Ok (can, wait, kind) ->
  can = true \/ wait > 30 ->
  let w' := exec (wait_if_needed (S fuel) est) w in
  eval (wait_if_needed (S fuel) est) w = Ok (Some can)
  /\ slept w' = slept w
  /\ rate_limit_hits (self w') = rate_limit_hits (self w) + (if can then 0 else 1)
  /\ total_wait_time (self w') = total_wait_time (self w).
Proof.
  intros Hcheck Hcase w'. subst w'.
  unfold eval at 1, exec at 1 2 3. rewrite wait_if_needed_run, Hcheck.
  unfold exec. rewrite check_rate_limit_run.
  unfold after_check.
  destruct can.
  - simpl. repeat split. lia.
  - destruct Hcase as [?|Hw]; [discriminate|].
    unfold max_wait_time.
    destruct (Z.gtb_spec wait 30) as [_|?]; [|lia].
    destruct w as [s clk n sl [|k] u]; destruct s; simpl; repeat split.
Qed.

Lemma wait_if_needed_first_attempt_witness :
  let w := exec (record_request 100)
             (world_of (__init__ "m" 1 1000 10000 1000000) (fun n => 15 * Z.of_nat n / 2)) in
  eval (wait_if_needed 1 50) w = Ok (Some false)
  /\ slept (exec (wait_if_needed 1 50) w) = slept w
  /\ rate_limit_hits (self (exec (wait_if_needed 1 50) w)) = rate_limit_hits (self w) + 1
  /\ total_wait_time (self (exec (wait_if_needed 1 50) w)) = total_wait_time (self w).
Proof.
  apply (wait_if_needed_first_attempt 0 50
           (exec (record_request 100)
              (world_of (__init__ "m" 1 1000 10000 1000000) (fun n => 15 * Z.of_nat n / 2)))
           false 45 (Some "requests_per_minute"%string)).
  - reflexivity.
  - right. reflexivity.
Defined.

(** ** Window pruning *)

Lemma pruned_ascending (now : Z) (s : APIRateLimiter) :
  ascending_logs s -> ascending_logs (pruned now s).
Proof.
  intros (H1 & H2 & H3 & H4). unfold ascending_logs, pruned; simpl.
  repeat split; now apply ascending_drop_expired.
Qed.

(** C5: on logs in ascending stamp order, the pruning step keeps in each
    minute log exactly the entries of age at most 60 and in each day log
    exactly those of age at most 86400, in their former order; the admission
    check and the snapshot leave the same pruned logs. *)
Theorem pruning_window_correctness (w : World) :
  ascending_logs (self w) ->
  let now := clock w (ticks w) in
  let s := self w in
  let s' := self (exec _clean_old_entries w) in
  (minute_requests s' = filter (in_window (fun t => t) now 60) (minute_requests s)
   /\ minute_tokens s' = filter (in_window fst now 60) (minute_tokens s)
   /\ day_requests s' = filter (in_window (fun t => t) now 86400) (day_requests s)
   /\ day_tokens s' = filter (in_window fst now 86400) (day_tokens s))
  /\ ascending_logs s'
  /\ (forall est, self (exec (check_rate_limit est) w) = s')
  /\ self (exec get_usage_stats w) = s'.
Proof.
  intros Hasc now s s'. subst s'. rewrite clean_self. fold now. fold s.
  destruct Hasc as (H1 & H2 & H3 & H4). fold s in H1, H2, H3, H4.
  split; [|split; [|split]].
  - unfold pruned; simpl.
    repeat split; now apply drop_expired_filter.
  - apply pruned_ascending. now repeat split.
  - intros est. apply check_rate_limit_self.
  - unfold exec. now rewrite get_usage_stats_run.
Qed.

Lemma pruning_window_correctness_witness :
  let w := mkWorld (mkAPIRateLimiter "m" 20 100000 10000 1000000
                      [86500; 86540; 86590] [(86500, 10); (86540, 20); (86590, 30)]
                      [100; 300; 86500; 86540; 86590]
                      [(100, 5); (300, 7); (86500, 10); (86540, 20); (86590, 30)]
                      5 72 0 0)
                   (fun _ => 86601) O [] O [] in
  minute_requests (self (exec _clean_old_entries w)) = [86590]
  /\ minute_tokens (self (exec _clean_old_entries w)) = [(86590, 30)]
  /\ day_requests (self (exec _clean_old_entries w)) = [300; 86500; 86540; 86590]
  /\ day_tokens (self (exec _clean_old_entries w))
     = [(300, 7); (86500, 10); (86540, 20); (86590, 30)].
Proof.
  intros w.
  assert (Hasc : ascending_logs (self w)).
  { unfold ascending_logs, ascending; simpl.
    repeat split; repeat constructor; simpl; lia. }
  exact (proj1 (pruning_window_correctness w Hasc)).
Defined.

(** ** Misconfiguration *)

(** C8, as stated, fails: the constructor is total, and a negative estimate
    given to a limiter with the default ceilings is admitted like any other
    number instead of being refused with an error. *)
Lemma misconfiguration_fails_fast_counterexample :
  ~ (forall (nm : string) (rpm tpm rpd tpd est : Z) (clk : nat -> Z),
        misconfigured rpm tpm rpd tpd est ->
        exists e, eval (check_rate_limit est) (world_of (__init__ nm rpm tpm rpd tpd) clk)
                  = Raise e).
Proof.
  intros H.
  destruct (H "default"%string 20 100000 10000 1000000 (-5) (fun _ => 0)) as [e He].
  - unfold misconfigured. lia.
  - discriminate He.
Qed.

(** A zero token ceiling is not refused either: the limiter answers every
    positive estimate with an ordinary rejection. *)
Lemma zero_token_ceiling_blocks_silently (nm : string) (rpm rpd tpd est : Z) (clk : nat -> Z) :
  0 < rpm -> 0 < est ->
  eval (check_rate_limit est) (world_of (__init__ nm rpm 0 rpd tpd) clk)
  = Ok (false, 60, Some "tokens_per_minute"%string).
Proof.
  intros Hrpm Hest. rewrite check_rate_limit_eval.
  cbn [self clock ticks world_of]. unfold pruned, __init__; simpl.
  rewrite minute_token_gate.
  - simpl. rewrite Z.sub_diag. reflexivity.
  - unfold len; simpl. lia.
  - simpl. lia.
Qed.

(** C8 (amended): the limiter validates nothing.  The constructor stores the
    four ceilings as given, and on a limiter whose two request ceilings are
    positive an admission call with any integer estimate returns an ordinary
    verdict, admitting exactly when each request count is below its ceiling
    and each in-window token sum plus the estimate is at most its ceiling. *)
Theorem no_validation (w : World) (est : Z) :
  0 < requests_per_minute (self w) ->
  0 < requests_per_day (self w) ->
  let s' := self (exec (check_rate_limit est) w) in
  (forall nm rpm tpm rpd tpd,
      let s0 := __init__ nm rpm tpm rpd tpd in
      requests_per_minute s0 = rpm /\ tokens_per_minute s0 = tpm
      /\ requests_per_day s0 = rpd /\ tokens_per_day s0 = tpd)
  /\ exists can wait kind,
      eval (check_rate_limit est) w = Ok (can, wait, kind)
      /\ (can = true <->
          len (minute_requests s') < requests_per_minute s'
          /\ sum_tokens (minute_tokens s') + est <= tokens_per_minute s'
          /\ len (day_requests s') < requests_per_day s'
          /\ sum_tokens (day_tokens s') + est <= tokens_per_day s').
Proof.
  intros Hrpm Hrpd s'. subst s'.
  split; [intros; repeat split|].
  rewrite check_rate_limit_self, check_rate_limit_eval.
  assert (Hrpm' : 0 < requests_per_minute (pruned (clock w (ticks w)) (self w))) by exact Hrpm.
  assert (Hrpd' : 0 < requests_per_day (pruned (clock w (ticks w)) (self w))) by exact Hrpd.
  revert Hrpm' Hrpd'.
  generalize (pruned (clock w (ticks w)) (self w)) as s.
  generalize (clock w (S (ticks w))) as now.
  intros now s Hrpm' Hrpd'. unfold gates.
  destruct (Z.geb_spec (len (minute_requests s)) (requests_per_minute s)) as [H1|H1].
  { destruct (minute_requests s) as [|oldest q] eqn:E.
    - unfold len in H1; simpl in H1; lia.
    - do 3 eexists; split; [reflexivity|]. split; [discriminate | lia]. }
  destruct (Z.gtb_spec (sum_tokens (minute_tokens s) + est) (tokens_per_minute s)) as [H2|H2].
  { do 3 eexists; split; [reflexivity|]. split; [discriminate | lia]. }
  destruct (Z.geb_spec (len (day_requests s)) (requests_per_day s)) as [H3|H3].
  { destruct (day_requests s) as [|oldest q] eqn:E.
    - unfold len in H3; simpl in H3; lia.
    - do 3 eexists; split; [reflexivity|]. split; [discriminate | lia]. }
  destruct (Z.gtb_spec (sum_tokens (day_tokens s) + est) (tokens_per_day s)) as [H4|H4].
  { do 3 eexists; split; [reflexivity|]. split; [discriminate | lia]. }
  do 3 eexists; split; [reflexivity|]. split; [intros _; lia | reflexivity].
Qed.

Lemma no_validation_witness :
  exists can wait kind,
    eval (check_rate_limit (-5)) (world_of default_limiter (fun _ => 0)) = Ok (can, wait, kind).
Proof.
  destruct (no_validation (world_of default_limiter (fun _ => 0)) (-5))
    as (_ & can & wait & kind & H & _).
  - reflexivity.
  - reflexivity.
  - exists can, wait, kind. exact H.
Defined.

(** ** Lock discipline *)

(** The three methods that take the lock touch the mutable attributes only
    while holding it, and give it back. *)
Lemma locked_methods_guarded (w : World) (est tokens_used : Z) :
  (unlocked (exec (check_rate_limit est) w) = unlocked w
   /\ lock_count (exec (check_rate_limit est) w) = lock_count w)
  /\ (unlocked (exec (record_request tokens_used) w) = unlocked w
      /\ lock_count (exec (record_request tokens_used) w) = lock_count w)
  /\ (unlocked (exec get_usage_stats w) = unlocked w
      /\ lock_count (exec get_usage_stats w) = lock_count w).
Proof.
  unfold exec.
  rewrite check_rate_limit_run, record_request_run, get_usage_stats_run.
  simpl. repeat split.
Qed.

(** C9: [wait_if_needed] updates [rate_limit_hits] after the lock taken by
    the admission check has been released: on a limiter whose only request
    slot is used, the call reads and writes the counter with the lock free;
    and two such unguarded increments can interleave so that two hits are
    counted once. *)
Theorem wait_if_needed_counts_outside_lock :
  let w := exec (record_request 100)
             (world_of (__init__ "m" 1 1000 10000 1000000) (fun n => 15 * Z.of_nat n / 2)) in
  eval (wait_if_needed 1 50) w = Ok (Some false)
  /\ unlocked (exec (wait_if_needed 1 50) w)
     = [(F_rate_limit_hits, Read); (F_rate_limit_hits, Write)]
  /\ (forall w0 : World,
         rate_limit_hits (self (exec two_hits_interleaved w0))
         = rate_limit_hits (self w0) + 1).
Proof.
  split; [reflexivity|]. split; [reflexivity|].
  intros [s clk n sl [|k] u]; destruct s; reflexivity.
Qed.

(** The retry branch does the same with both counters it updates. *)
Lemma wait_if_needed_retry_outside_lock :
  let w := exec (record_request 100)
             (world_of (__init__ "m" 1 1000 10000 1000000) (fun n => 25 * Z.of_nat n)) in
  eval (wait_if_needed 2 50) w = Ok (Some true)
  /\ slept (exec (wait_if_needed 2 50) w) = [10]
  /\ unlocked (exec (wait_if_needed 2 50) w)
     = [(F_total_wait_time, Read); (F_total_wait_time, Write);
        (F_rate_limit_hits, Read); (F_rate_limit_hits, Write)].
Proof. repeat split. Qed.

(** ** The minute logs are suffixes of the day logs *)

Lemma exec_then_ret {A} (m : M A) (w : World) :
  exec (m ;; ret tt) w = exec m w.
Proof.
  unfold exec, bind, ret. destruct (m w) as [[a|e] w']; reflexivity.
Qed.

(** A property of the logs that pruning keeps is kept by the blocking wait,
    however many turns its loop takes. *)
Lemma wait_if_needed_keeps (P : APIRateLimiter -> Prop) :
  (forall now s, P s -> P (pruned now s)) ->
  (forall s s', same_logs s s' -> P s -> P s') ->
  forall (fuel : nat) (est : Z) (w : World),
    P (self w) -> P (self (exec (wait_if_needed fuel est) w)).
Proof.
  intros Hprune Hsame fuel est.
  induction fuel as [|fuel IH]; intros w Hinv; [exact Hinv|].
  unfold exec. rewrite wait_if_needed_run.
  unfold eval, exec. rewrite check_rate_limit_run. cbn [fst snd].
  pose proof (Hprune (clock w (ticks w)) _ Hinv) as Hp.
  destruct (gates _ est _) as [[[can wait] kind]|e]; [|exact Hp].
  unfold after_check.
  destruct can; [exact Hp|].
  set (s1 := pruned (clock w (ticks w)) (self w)) in *.
  destruct (wait >? max_wait_time).
  - destruct (lock_count w);
      cbn [bind load store note ret with_self snd
           self clock ticks slept lock_count unlocked];
      (eapply Hsame; [|exact Hp]); destruct s1; repeat split.
  - destruct (lock_count w) as [|k];
      cbn [bind load store note time_sleep with_self
           self clock ticks slept lock_count unlocked];
      apply IH; (eapply Hsame; [|exact Hp]); destruct s1; repeat split.
Qed.

Lemma perform_keeps (P : APIRateLimiter -> Prop) (c : call) :
  (forall now s, P s -> P (pruned now s)) ->
  (forall s s', same_logs s s' -> P s -> P s') ->
  (forall now tokens_used s,
      c = CallRecord tokens_used -> P s -> P (recorded now tokens_used s)) ->
  forall w : World, P (self w) -> P (self (exec (perform c) w)).
Proof.
  intros Hprune Hsame Hrec w Hinv.
  destruct c as [est|fuel est|tokens_used|]; simpl perform.
  - rewrite exec_then_ret, check_rate_limit_self. now apply Hprune.
  - rewrite exec_then_ret. now apply wait_if_needed_keeps.
  - unfold exec. rewrite record_request_run. simpl. now apply Hrec.
  - rewrite exec_then_ret. unfold exec. rewrite get_usage_stats_run. simpl.
    now apply Hprune.
Qed.












(** ** Logs stay ascending under a non-decreasing clock *)

Lemma log_on_time_later {A} (stamp : A -> Z) clk (n n' : nat) (q : list A) :
  (n <= n')%nat -> log_on_time stamp clk n q -> log_on_time stamp clk n' q.
Proof.
  intros Hn [Hasc Hb]. split; [exact Hasc|].
  intros j Hj. apply Hb. lia.
Qed.

Lemma log_on_time_pruned {A} (stamp : A -> Z) clk (n n' : nat) (now window : Z) (q : list A) :
  (n <= n')%nat ->
  log_on_time stamp clk n q ->
  log_on_time stamp clk n' (drop_expired stamp now window q).
Proof.
  intros Hn [Hasc Hb]. split.
  - now apply ascending_drop_expired.
  - intros j Hj. eapply is_suffix_Forall; [apply drop_expired_suffix|].
    apply Hb. lia.
Qed.

Lemma log_on_time_recorded {A} (stamp : A -> Z) clk (n : nat) (x : A) (q : list A) :
  non_decreasing clk ->
  stamp x = clk n ->
  log_on_time stamp clk n q ->
  log_on_time stamp clk (S n) (q ++ [x]).
Proof.
  intros Hmono Hx [Hasc Hb]. split.
  - apply ascending_snoc; [exact Hasc|].
    rewrite Hx. apply Hb. lia.
  - intros j Hj. apply Forall_app. split.
    + apply Hb. lia.
    + constructor; [|constructor]. rewrite Hx. apply Hmono. lia.
Qed.

Lemma on_time_pruned (s : APIRateLimiter) clk (n n' : nat) sl k u sl' k' u' (now : Z) :
  (n <= n')%nat ->
  on_time (mkWorld s clk n sl k u) ->
  on_time (mkWorld (pruned now s) clk n' sl' k' u').
Proof.
  intros Hn (H1 & H2 & H3 & H4). unfold on_time in *; simpl in *.
  repeat apply conj; eapply log_on_time_pruned; eauto.
Qed.

Lemma on_time_same_logs (s s' : APIRateLimiter) clk (n n' : nat) sl k u sl' k' u' :
  (n <= n')%nat ->
  minute_requests s' = minute_requests s ->
  minute_tokens s' = minute_tokens s ->
  day_requests s' = day_requests s ->
  day_tokens s' = day_tokens s ->
  on_time (mkWorld s clk n sl k u) ->
  on_time (mkWorld s' clk n' sl' k' u').
Proof.
  intros Hn E1 E2 E3 E4 (H1 & H2 & H3 & H4). unfold on_time in *; simpl in *.
  rewrite E1, E2, E3, E4.
  repeat apply conj; eapply log_on_time_later; eauto.
Qed.

Lemma check_rate_limit_on_time (est : Z) (w : World) :
  on_time w -> on_time (exec (check_rate_limit est) w).
Proof.
  intros H. unfold exec. rewrite check_rate_limit_run; cbn [snd].
  destruct w as [s clk n sl k u]. eapply on_time_pruned; [|exact H].
  simpl. lia.
Qed.

Lemma wait_if_needed_on_time (fuel : nat) (est : Z) (w : World) :
  on_time w -> on_time (exec (wait_if_needed fuel est) w).
Proof.
  revert w. induction fuel as [|fuel IH]; intros w Hinv; [exact Hinv|].
  pose proof (check_rate_limit_on_time est w Hinv) as Hp.
  unfold exec in Hp |- *. rewrite wait_if_needed_run.
  unfold eval, exec. rewrite check_rate_limit_run in Hp |- *. cbn [fst snd] in Hp |- *.
  destruct (gates _ est _) as [[[can wait] kind]|e]; [|exact Hp].
  unfold after_check.
  destruct can; [exact Hp|].
  set (s1 := pruned (clock w (ticks w)) (self w)) in *.
  destruct (wait >? max_wait_time).
  - destruct (lock_count w);
      cbn [bind load store note ret with_self snd
           self clock ticks slept lock_count unlocked];
      (eapply on_time_same_logs; [apply Nat.le_refl | | | | | exact Hp]);
      destruct s1; reflexivity.
  - destruct (lock_count w) as [|k];
      cbn [bind load store note time_sleep with_self
           self clock ticks slept lock_count unlocked];
      apply IH;
      (eapply on_time_same_logs; [apply Nat.le_refl | | | | | exact Hp]);
      destruct s1; reflexivity.
Qed.

Lemma perform_on_time (c : call) (w : World) :
  non_decreasing (clock w) -> on_time w -> on_time (exec (perform c) w).
Proof.
  intros Hmono Hinv. destruct c as [est|fuel est|tokens_used|]; simpl perform.
  - rewrite exec_then_ret. now apply check_rate_limit_on_time.
  - rewrite exec_then_ret. now apply wait_if_needed_on_time.
  - unfold exec. rewrite record_request_run; cbn [snd].
    destruct Hinv as (H1 & H2 & H3 & H4).
    unfold on_time, recorded; simpl.
    split; [|split; [|split]].
    + now apply (log_on_time_recorded (fun t => t)).
    + now apply (log_on_time_recorded fst).
    + now apply (log_on_time_recorded (fun t => t)).
    + now apply (log_on_time_recorded fst).
  - rewrite exec_then_ret. unfold exec. rewrite get_usage_stats_run; cbn [snd].
    destruct w as [s clk n sl k u]. eapply on_time_pruned; [|exact Hinv].
    simpl. lia.
Qed.

Lemma perform_clock (c : call) (w : World) : clock (exec (perform c) w) = clock w.
Proof.
  destruct c as [est|fuel est|tokens_used|]; simpl perform.
  - rewrite exec_then_ret. unfold exec. now rewrite check_rate_limit_run.
  - rewrite exec_then_ret. revert w.
    induction fuel as [|fuel IH]; intros w; [reflexivity|].
    unfold exec. rewrite wait_if_needed_run.
    unfold eval, exec. rewrite check_rate_limit_run. cbn [fst snd].
    destruct (gates _ est _) as [[[can wait] kind]|e]; [|reflexivity].
    unfold after_check.
    destruct can; [reflexivity|].
    destruct (wait >? max_wait_time).
    + destruct (lock_count w); reflexivity.
    + destruct (lock_count w);
        cbn [bind load store note time_sleep with_self
             self clock ticks slept lock_count unlocked];
        unfold exec in IH; now rewrite IH.
  - unfold exec. now rewrite record_request_run.
  - rewrite exec_then_ret. unfold exec. now rewrite get_usage_stats_run.
Qed.

(** Under a clock that never runs backwards, every history leaves the four
    logs of a fresh limiter in ascending stamp order. *)
Lemma run_calls_on_time (cs : list call) (w : World) :
  non_decreasing (clock w) -> on_time w -> on_time (run_calls cs w).
Proof.
  revert w. induction cs as [|c cs IH]; intros w Hmono Hinv; [exact Hinv|].
  simpl. apply IH.
  - now rewrite perform_clock.
  - now apply perform_on_time.
Qed.

Lemma run_calls_ascending
    (nm : string) (rpm tpm rpd tpd : Z) (clk : nat -> Z) (cs : list call) :
  non_decreasing clk ->
  ascending_logs (self (run_calls cs (world_of (__init__ nm rpm tpm rpd tpd) clk))).
Proof.
  intros Hmono.
  assert (H : on_time (run_calls cs (world_of (__init__ nm rpm tpm rpd tpd) clk))).
  { apply run_calls_on_time; [exact Hmono|].
    unfold on_time, log_on_time, ascending; simpl.
    repeat split; constructor. }
  destruct H as (H1 & H2 & H3 & H4).
  repeat split; [apply H1 | apply H2 | apply H3 | apply H4].
Qed.

(** ** Shape of the verdicts *)

Lemma gates_wait_nonneg (now est : Z) (s : APIRateLimiter)
    (can : bool) (wait : Z) (kind : option string) :
  gates now est s = Ok (can, wait, kind) -> 0 <= wait.
Proof.
  unfold gates.
  repeat match goal with
         | |- context [if ?c then _ else _] => destruct c
         | |- context [match ?l with [] => _ | _ :: _ => _ end] => destruct l
         end; intros H; inversion H; subst; lia.
Qed.

Lemma gates_admit_iff (now est : Z) (s : APIRateLimiter) :
  has_room est s <-> gates now est s = Ok (true, 0, None).
Proof.
  unfold has_room, gates.
  destruct (Z.geb_spec (len (minute_requests s)) (requests_per_minute s)).
  { split; [lia|]. destruct (minute_requests s); discriminate. }
  destruct (Z.gtb_spec (sum_tokens (minute_tokens s) + est) (tokens_per_minute s)).
  { split; [lia | discriminate]. }
  destruct (Z.geb_spec (len (day_requests s)) (requests_per_day s)).
  { split; [lia|]. destruct (day_requests s); discriminate. }
  destruct (Z.gtb_spec (sum_tokens (day_tokens s) + est) (tokens_per_day s)).
  { split; [lia | discriminate]. }
  split; [reflexivity | lia].
Qed.

Lemma gates_admitted (now est : Z) (s : APIRateLimiter) (wait : Z) (kind : option string) :
  gates now est s = Ok (true, wait, kind) -> has_room est s.
Proof.
  intros H. apply (gates_admit_iff now). revert H. unfold gates.
  repeat match goal with
         | |- context [if ?c then _ else _] => destruct c
         | |- context [match ?l with [] => _ | _ :: _ => _ end] => destruct l
         end; intros H; inversion H; reflexivity.
Qed.

(** X1: a verdict of [check_rate_limit] is well formed: the wait is never
    negative; an admission comes with wait 0 and no limit kind; a rejection
    names one of the four limit kinds. *)
Theorem verdict_well_formed (w : World) (est : Z)
    (can : bool) (wait : Z) (kind : option string) :
  eval (check_rate_limit est) w = Ok (can, wait, kind) ->
  0 <= wait
  /\ (can = true -> wait = 0 /\ kind = None)
  /\ (can = false ->
      kind = Some "requests_per_minute"%string \/ kind = Some "tokens_per_minute"%string
      \/ kind = Some "requests_per_day"%string \/ kind = Some "tokens_per_day"%string).
Proof.
  rewrite check_rate_limit_eval. intros H.
  split; [eapply gates_wait_nonneg; exact H|].
  revert H. unfold gates.
  repeat match goal with
         | |- context [if ?c then _ else _] => destruct c
         | |- context [match ?l with [] => _ | _ :: _ => _ end] => destruct l
         end; intros H; inversion H; subst;
    (split; [intros; try discriminate; auto | intros; try discriminate; auto]).
Qed.

Lemma verdict_well_formed_witness :
  0 <= 45
  /\ (false = true -> 45 = 0 /\ Some "requests_per_minute"%string = None)
  /\ (false = false ->
      Some "requests_per_minute"%string = Some "requests_per_minute"%string
      \/ Some "requests_per_minute"%string = Some "tokens_per_minute"%string
      \/ Some "requests_per_minute"%string = Some "requests_per_day"%string
      \/ Some "requests_per_minute"%string = Some "tokens_per_day"%string).
Proof.
  apply (verdict_well_formed
           (exec (record_request 100)
              (world_of (__init__ "m" 1 1000 10000 1000000) (fun n => 15 * Z.of_nat n / 2)))
           50 false 45 (Some "requests_per_minute"%string)).
  reflexivity.
Defined.

(** X2: the verdict reports the first violated gate in the order
    minute requests, minute tokens, day requests, day tokens, whatever the
    later gates would say; it admits exactly when no gate is violated. *)
Theorem gate_precedence (w : World) (est : Z)
    (can : bool) (wait : Z) (kind : option string) :
  eval (check_rate_limit est) w = Ok (can, wait, kind) ->
  let s' := self (exec (check_rate_limit est) w) in
  (len (minute_requests s') >= requests_per_minute s' ->
   kind = Some "requests_per_minute"%string)
  /\ (len (minute_requests s') < requests_per_minute s' ->
      sum_tokens (minute_tokens s') + est > tokens_per_minute s' ->
      kind = Some "tokens_per_minute"%string)
  /\ (len (minute_requests s') < requests_per_minute s' ->
      sum_tokens (minute_tokens s') + est <= tokens_per_minute s' ->
      len (day_requests s') >= requests_per_day s' ->
      kind = Some "requests_per_day"%string)
  /\ (len (minute_requests s') < requests_per_minute s' ->
      sum_tokens (minute_tokens s') + est <= tokens_per_minute s' ->
      len (day_requests s') < requests_per_day s' ->
      sum_tokens (day_tokens s') + est > tokens_per_day s' ->
      kind = Some "tokens_per_day"%string)
  /\ (can = true <-> has_room est s').
Proof.
  intros H s'. subst s'. rewrite check_rate_limit_self.
  rewrite check_rate_limit_eval in H. revert H.
  generalize (pruned (clock w (ticks w)) (self w)) as s.
  generalize (clock w (S (ticks w))) as now.
  intros now s H.
  assert (Hroom : can = true <-> has_room est s).
  { split.
    - intros ->. eapply gates_admitted; exact H.
    - intros Hr. apply (gates_admit_iff now) in Hr. rewrite Hr in H.
      now inversion H. }
  revert H. unfold gates.
  destruct (Z.geb_spec (len (minute_requests s)) (requests_per_minute s)) as [G1|G1].
  { destruct (minute_requests s); [discriminate|].
    intros H; inversion H; subst. repeat split; try lia; try apply Hroom; auto. }
  destruct (Z.gtb_spec (sum_tokens (minute_tokens s) + est) (tokens_per_minute s)) as [G2|G2].
  { intros H; inversion H; subst. repeat split; try lia; try apply Hroom; auto. }
  destruct (Z.geb_spec (len (day_requests s)) (requests_per_day s)) as [G3|G3].
  { destruct (day_requests s); [discriminate|].
    intros H; inversion H; subst. repeat split; try lia; try apply Hroom; auto. }
  destruct (Z.gtb_spec (sum_tokens (day_tokens s) + est) (tokens_per_day s)) as [G4|G4].
  { intros H; inversion H; subst. repeat split; try lia; try apply Hroom; auto. }
  intros H; inversion H; subst. repeat split; try lia; try apply Hroom; auto.
Qed.

Lemma gate_precedence_witness :
  let w := exec (record_request 100)
             (world_of (__init__ "m" 1 1000 10000 1000000) (fun n => 15 * Z.of_nat n / 2)) in
  let s' := self (exec (check_rate_limit 5000) w) in
  sum_tokens (minute_tokens s') + 5000 > tokens_per_minute s'
  /\ (len (minute_requests s') >= requests_per_minute s' ->
      Some "requests_per_minute"%string = Some "requests_per_minute"%string)
  /\ (false = true <-> has_room 5000 s').
Proof.
  intros w s'. split; [reflexivity|].
  destruct (gate_precedence w 5000 false 45 (Some "requests_per_minute"%string))
    as (H1 & _ & _ & _ & H5).
  - reflexivity.
  - split; [exact H1 | exact H5].
Defined.

(** ** Check, then record *)

(** X3: when a call is admitted and then recorded with at most the tokens
    it was estimated at, no window holds more than its ceiling: the request
    counts and the token sums of the minute and day logs are within the four
    configured limits. *)
Theorem admitted_then_recorded_within_limits (w : World) (est used wait : Z)
    (kind : option string) :
  eval (check_rate_limit est) w = Ok (true, wait, kind) ->
  used <= est ->
  within_limits (self (exec (record_request used) (exec (check_rate_limit est) w))).
Proof.
  rewrite check_rate_limit_eval. intros H Hused.
  apply gates_admitted in H. destruct H as (H1 & H2 & H3 & H4).
  unfold exec. rewrite check_rate_limit_run, record_request_run. cbn [snd self clock ticks].
  unfold within_limits, recorded, pruned, len in *; simpl in *.
  rewrite !length_app, !sum_tokens_app. simpl.
  repeat split; lia.
Qed.

Lemma admitted_then_recorded_within_limits_witness :
  within_limits
    (self (exec (record_request 18)
             (exec (check_rate_limit 20)
                (exec (record_request 480)
                   (world_of (__init__ "m" 2 500 10000 1000000) (fun n => Z.of_nat n)))))).
Proof.
  apply (admitted_then_recorded_within_limits
           (exec (record_request 480)
              (world_of (__init__ "m" 2 500 10000 1000000) (fun n => Z.of_nat n)))
           20 18 0 None).
  - reflexivity.
  - lia.
Defined.

(** ** Pruning at successive times *)

Section Pruning.
Context {A : Type}.
Variable stamp : A -> Z.

Lemma drop_expired_later (t1 t2 window : Z) (q : list A) :
  t1 <= t2 ->
  drop_expired stamp t2 window (drop_expired stamp t1 window q)
  = drop_expired stamp t2 window q.
Proof.
  intros Ht. induction q as [|x q IH]; simpl; [reflexivity|].
  destruct (Z.gtb_spec (t1 - stamp x) window) as [H1|H1].
  - destruct (Z.gtb_spec (t2 - stamp x) window) as [H2|H2]; [exact IH | lia].
  - reflexivity.
Qed.

Lemma drop_expired_all (now window : Z) (q : list A) :
  Forall (fun x => now - stamp x > window) q ->
  drop_expired stamp now window q = [].
Proof.
  induction 1 as [|x q Hx _ IH]; simpl; [reflexivity|].
  destruct (Z.gtb_spec (now - stamp x) window); [exact IH | lia].
Qed.

Lemma drop_expired_length (now window : Z) (q : list A) :
  len (drop_expired stamp now window q) <= len q.
Proof. apply is_suffix_length, drop_expired_suffix. Qed.
End Pruning.

Lemma pruned_later (t1 t2 : Z) (s : APIRateLimiter) :
  t1 <= t2 -> pruned t2 (pruned t1 s) = pruned t2 s.
Proof.
  intros Ht. unfold pruned; simpl.
  now rewrite !drop_expired_later.
Qed.

(** X4: pruning at a later clock reading absorbs an earlier pruning, so an
    admission check followed by a snapshot (or by another check) leaves the
    same limiter as pruning once at the later reading; checking repeatedly
    loses no entry that a single late pruning would keep. *)
Theorem pruning_composes (w : World) (est : Z) :
  clock w (ticks w) <= clock w (S (S (ticks w))) ->
  let late := pruned (clock w (S (S (ticks w)))) (self w) in
  self (exec get_usage_stats (exec (check_rate_limit est) w)) = late
  /\ (forall est', self (exec (check_rate_limit est') (exec (check_rate_limit est) w)) = late)
  /\ self (exec get_usage_stats (exec get_usage_stats w)) = late.
Proof.
  intros Ht late. subst late.
  unfold exec.
  rewrite check_rate_limit_run, !get_usage_stats_run. cbn [snd self clock ticks].
  repeat split.
  - now apply pruned_later.
  - intros est'. rewrite check_rate_limit_run. cbn [snd self clock ticks].
    now apply pruned_later.
  - now apply pruned_later.
Qed.

Lemma pruning_composes_witness :
  let w := exec (record_request 30)
             (exec (record_request 100) (world_of default_limiter (fun n => 20 * Z.of_nat n))) in
  minute_requests (self (exec get_usage_stats (exec (check_rate_limit 50) w))) = [20].
Proof.
  intros w.
  destruct (pruning_composes w 50) as (H & _).
  - vm_compute. congruence.
  - rewrite H. reflexivity.
Defined.

(** ** The loop of the blocking wait *)

Lemma after_check_run (fuel : nat) (est : Z) (can : bool) (wait : Z)
    (kind : option string) (w : World) :
  after_check fuel est (can, wait, kind) w
  = if can then (Ok (Some true), w)
    else if wait >? max_wait_time then (Ok (Some false), exec count_hit w)
    else wait_if_needed fuel est
           (exec (time_sleep wait) (exec count_hit (exec (add_wait wait) w))).
Proof.
  unfold after_check. destruct can; [reflexivity|].
  destruct (wait >? max_wait_time);
    destruct w as [s clk n sl [|k] u]; reflexivity.
Qed.

(** The world after a hit has been counted. *)
Lemma count_hit_effect (w : World) :
  let w' := exec count_hit w in
  same_logs (self w) (self w')
  /\ rate_limit_hits (self w') = rate_limit_hits (self w) + 1
  /\ total_wait_time (self w') = total_wait_time (self w)
  /\ total_requests (self w') = total_requests (self w)
  /\ total_tokens (self w') = total_tokens (self w)
  /\ slept w' = slept w /\ clock w' = clock w /\ ticks w' = ticks w.
Proof.
  destruct w as [s clk n sl [|k] u]; destruct s; simpl; unfold same_logs; simpl;
    repeat split.
Qed.

(** The world after a wait has been booked, counted and slept. *)
Lemma retry_effect (d : Z) (w : World) :
  let w' := exec (time_sleep d) (exec count_hit (exec (add_wait d) w)) in
  same_logs (self w) (self w')
  /\ rate_limit_hits (self w') = rate_limit_hits (self w) + 1
  /\ total_wait_time (self w') = total_wait_time (self w) + d
  /\ total_requests (self w') = total_requests (self w)
  /\ total_tokens (self w') = total_tokens (self w)
  /\ slept w' = slept w ++ [d] /\ clock w' = clock w /\ ticks w' = ticks w.
Proof.
  destruct w as [s clk n sl [|k] u]; destruct s; simpl; unfold same_logs; simpl;
    repeat split.
Qed.

(** What a run of [wait_if_needed] does to the sleeps and to the lifetime
    counters. *)
Lemma wait_if_needed_effect (fuel : nat) (est : Z) (w : World) :
  let w' := snd (wait_if_needed fuel est w) in
  exists l : list Z,
    slept w' = slept w ++ l
    /\ Forall (fun d => 0 <= d <= 30) l
    /\ total_wait_time (self w') = total_wait_time (self w) + total_of l
    /\ rate_limit_hits (self w')
       = rate_limit_hits (self w) + len l
         + match fst (wait_if_needed fuel est w) with
           | Ok (Some false) => 1
           | _ => 0
           end
    /\ total_requests (self w') = total_requests (self w)
    /\ total_tokens (self w') = total_tokens (self w).
Proof.
  revert w. induction fuel as [|fuel IH]; intros w; cbv zeta.
  - exists []. unfold len. simpl. rewrite app_nil_r. repeat split; try lia. constructor.
  - rewrite wait_if_needed_run. unfold eval, exec.
    rewrite check_rate_limit_run. cbn [fst snd].
    set (w1 := mkWorld (pruned (clock w (ticks w)) (self w)) (clock w)
                 (S (S (ticks w))) (slept w) (lock_count w) (unlocked w)).
    destruct (gates _ est _) as [[[can wait] kind]|e] eqn:Hg.
    2: { exists []. unfold len. simpl. rewrite app_nil_r. repeat split; try lia. constructor. }
    apply gates_wait_nonneg in Hg.
    rewrite after_check_run.
    destruct can.
    { exists []. unfold len. simpl. rewrite app_nil_r. repeat split; try lia. constructor. }
    unfold max_wait_time.
    destruct (Z.gtb_spec wait 30) as [Hgt|Hle].
    + exists []. cbn [fst snd].
      destruct (count_hit_effect w1) as (_ & Hh & Ht & Hr & Hk & Hs & _).
      rewrite Hs, Hh, Ht, Hr, Hk. unfold len. simpl. rewrite app_nil_r.
      repeat split; try lia. constructor.
    + specialize (IH (exec (time_sleep wait) (exec count_hit (exec (add_wait wait) w1)))).
      cbv zeta in IH. destruct IH as (l & Hs & Hall & Ht & Hh & Hr & Hk).
      destruct (retry_effect wait w1) as (_ & Hh1 & Ht1 & Hr1 & Hk1 & Hs1 & _).
      exists (wait :: l).
      rewrite Hs, Ht, Hh, Hr, Hk, Hs1, Ht1, Hh1, Hr1, Hk1.
      unfold total_of, len in *. simpl.
      rewrite <- app_assoc. simpl.
      repeat split; try lia.
      constructor; [lia | exact Hall].
Qed.

(** X5: a run of [wait_if_needed], however many turns it takes, sleeps only
    for durations between 0 and 30; [total_wait_time] grows by exactly the
    time slept, [rate_limit_hits] by the number of sleeps, plus one when the
    run gives up with [False]; [total_requests] and [total_tokens] are left
    alone. *)
Theorem wait_if_needed_accounting (fuel : nat) (est : Z) (w : World) :
  let w' := exec (wait_if_needed fuel est) w in
  exists l : list Z,
    slept w' = slept w ++ l
    /\ Forall (fun d => 0 <= d <= 30) l
    /\ total_wait_time (self w') = total_wait_time (self w) + total_of l
    /\ rate_limit_hits (self w')
       = rate_limit_hits (self w) + len l
         + match eval (wait_if_needed fuel est) w with
           | Ok (Some false) => 1
           | _ => 0
           end
    /\ total_requests (self w') = total_requests (self w)
    /\ total_tokens (self w') = total_tokens (self w).
Proof. exact (wait_if_needed_effect fuel est w). Qed.

(** A run that answers [True] ends on an admitting check. *)
Lemma wait_if_needed_true (fuel : nat) (est : Z) (w : World) :
  fst (wait_if_needed fuel est w) = Ok (Some true) ->
  has_room est (self (snd (wait_if_needed fuel est w))).
Proof.
  revert w. induction fuel as [|fuel IH]; intros w; [discriminate|].
  rewrite wait_if_needed_run. unfold eval, exec.
  rewrite check_rate_limit_run. cbn [fst snd].
  destruct (gates _ est _) as [[[can wait] kind]|e] eqn:Hg; [|discriminate].
  rewrite after_check_run.
  destruct can.
  - intros _. cbn [snd self]. eapply gates_admitted; exact Hg.
  - destruct (wait >? max_wait_time); [discriminate|]. apply IH.
Qed.

(** X6: when [wait_if_needed] answers [True], the limiter it leaves has room
    under all four quotas for the estimated call: both request counts are
    below their ceilings and both token sums plus the estimate are at most
    theirs. *)
Theorem wait_if_needed_true_has_room (fuel : nat) (est : Z) (w : World) :
  eval (wait_if_needed fuel est) w = Ok (Some true) ->
  has_room est (self (exec (wait_if_needed fuel est) w)).
Proof. exact (wait_if_needed_true fuel est w). Qed.

Lemma wait_if_needed_true_has_room_witness :
  has_room 50
    (self (exec (wait_if_needed 2 50)
             (exec (record_request 100)
                (world_of (__init__ "m" 1 1000 10000 1000000) (fun n => 25 * Z.of_nat n))))).
Proof.
  apply (wait_if_needed_true_has_room 2 50
           (exec (record_request 100)
              (world_of (__init__ "m" 1 1000 10000 1000000) (fun n => 25 * Z.of_nat n)))).
  reflexivity.
Defined.

(** ** Lifetime counters over a history *)

Lemma total_of_app (p q : list Z) : total_of (p ++ q) = total_of p + total_of q.
Proof.
  unfold total_of. induction p as [|x p IH]; simpl; lia.
Qed.

Lemma total_of_nonneg (l : list Z) :
  Forall (fun d => 0 <= d <= 30) l -> 0 <= total_of l.
Proof.
  unfold total_of. induction 1 as [|x l Hx _ IH]; simpl; lia.
Qed.

Lemma perform_counters (c : call) (w : World) :
  let s := self w in
  let s' := self (exec (perform c) w) in
  total_requests s <= total_requests s'
  /\ rate_limit_hits s <= rate_limit_hits s'
  /\ total_wait_time s <= total_wait_time s'
  /\ (counts_tokens c -> total_tokens s <= total_tokens s').
Proof.
  cbv zeta. destruct c as [est|fuel est|tokens_used|]; simpl perform.
  - rewrite exec_then_ret, check_rate_limit_self. simpl. repeat split; lia.
  - rewrite exec_then_ret. unfold exec.
    destruct (wait_if_needed_effect fuel est w) as (l & _ & Hall & Ht & Hh & Hr & Hk).
    rewrite Ht, Hh, Hr, Hk. apply total_of_nonneg in Hall.
    assert (0 <= len l) by (unfold len; lia).
    repeat split; try lia.
    destruct (fst (wait_if_needed fuel est w)) as [[[|]|]|]; lia.
  - unfold exec. rewrite record_request_run. simpl. repeat split; try lia.
  - rewrite exec_then_ret. unfold exec. rewrite get_usage_stats_run. simpl.
    repeat split; lia.
Qed.

(** X7: over any history of calls the four lifetime counters never
    decrease: [total_requests], [rate_limit_hits] and [total_wait_time]
    always, [total_tokens] when no negative token count is recorded. *)
Theorem lifetime_counters_never_decrease (cs : list call) (w : World) :
  let s := self w in
  let s' := self (run_calls cs w) in
  total_requests s <= total_requests s'
  /\ rate_limit_hits s <= rate_limit_hits s'
  /\ total_wait_time s <= total_wait_time s'
  /\ (Forall counts_tokens cs -> total_tokens s <= total_tokens s').
Proof.
  cbv zeta. revert w. induction cs as [|c cs IH]; intros w.
  - simpl. repeat split; lia.
  - simpl. destruct (IH (exec (perform c) w)) as (H1 & H2 & H3 & H4).
    destruct (perform_counters c w) as (G1 & G2 & G3 & G4).
    repeat split; try lia.
    intros Hcs. inversion Hcs as [|? ? Hc Hcs']; subst.
    specialize (H4 Hcs'). specialize (G4 Hc). lia.
Qed.

(** ** The lifetime totals count what was recorded *)

Lemma is_suffix_map {A B} (f : A -> B) (m d : list A) :
  is_suffix m d -> is_suffix (map f m) (map f d).
Proof. intros [pre ->]. exists (map f pre). apply map_app. Qed.

Lemma records_of_cons (c : call) (cs : list call) :
  records_of (c :: cs) = records_of [c] ++ records_of cs.
Proof. destruct c; reflexivity. Qed.

Lemma perform_booked (pre : list Z) (c : call) (w : World) :
  booked pre (self w) -> booked (pre ++ records_of [c]) (self (exec (perform c) w)).
Proof.
  intros (Hr & Hk & Hs).
  assert (Hprune : forall now s,
             is_suffix (map snd (day_tokens s)) pre ->
             is_suffix (map snd (day_tokens (pruned now s))) pre).
  { intros now s H. eapply is_suffix_trans; [|exact H].
    apply is_suffix_map. simpl. apply drop_expired_suffix. }
  destruct c as [est|fuel est|tokens_used|]; simpl perform; simpl records_of;
    rewrite ?app_nil_r.
  - rewrite exec_then_ret, check_rate_limit_self.
    split; [exact Hr | split; [exact Hk | now apply Hprune]].
  - rewrite exec_then_ret. unfold exec.
    destruct (wait_if_needed_effect fuel est w) as (l & _ & _ & _ & _ & Hr' & Hk').
    repeat split; [congruence | congruence |].
    apply (wait_if_needed_keeps (fun s => is_suffix (map snd (day_tokens s)) pre));
      [exact Hprune | | exact Hs].
    intros s s' (_ & _ & _ & ->). exact (fun H => H).
  - unfold exec. rewrite record_request_run. simpl.
    unfold booked, recorded; simpl.
    rewrite map_app, total_of_app. unfold len, total_of in *.
    rewrite length_app. simpl.
    repeat split; try lia.
    now apply is_suffix_snoc.
  - rewrite exec_then_ret. unfold exec. rewrite get_usage_stats_run. cbn [snd self].
    split; [exact Hr | split; [exact Hk | now apply Hprune]].
Qed.

Lemma run_calls_booked (cs : list call) (pre : list Z) (w : World) :
  booked pre (self w) -> booked (pre ++ records_of cs) (self (run_calls cs w)).
Proof.
  revert pre w. induction cs as [|c cs IH]; intros pre w H.
  - simpl. now rewrite app_nil_r.
  - rewrite records_of_cons, app_assoc. simpl run_calls.
    apply IH. now apply perform_booked.
Qed.

(** X8: after any history of calls on a fresh limiter, [total_requests] is
    the number of recordings made and [total_tokens] the sum of the token
    counts recorded; the token counts held by the day-token log are the most
    recent of the recorded ones, in recording order (nothing is logged that
    was not recorded, whatever checks, waits and snapshots came between). *)
Theorem totals_count_recordings
    (nm : string) (rpm tpm rpd tpd : Z) (clk : nat -> Z) (cs : list call) :
  let s := self (run_calls cs (world_of (__init__ nm rpm tpm rpd tpd) clk)) in
  total_requests s = len (records_of cs)
  /\ total_tokens s = total_of (records_of cs)
  /\ is_suffix (map snd (day_tokens s)) (records_of cs).
Proof.
  cbv zeta.
  apply (run_calls_booked cs [] (world_of (__init__ nm rpm tpm rpd tpd) clk)).
  unfold booked; simpl. repeat split. apply is_suffix_refl.
Qed.

(** ** Request logs and token logs stay aligned *)

Lemma drop_expired_map_fst (now window : Z) (q : list (Z * Z)) :
  map fst (drop_expired fst now window q)
  = drop_expired (fun t => t) now window (map fst q).
Proof.
  induction q as [|x q IH]; simpl; [reflexivity|].
  destruct (now - fst x >? window); [exact IH | reflexivity].
Qed.

Lemma logs_aligned_pruned (now : Z) (s : APIRateLimiter) :
  logs_aligned s -> logs_aligned (pruned now s).
Proof.
  intros (Hm & Hd). unfold logs_aligned, pruned; simpl.
  rewrite !drop_expired_map_fst, Hm, Hd. split; reflexivity.
Qed.

Lemma logs_aligned_same_logs (s s' : APIRateLimiter) :
  same_logs s s' -> logs_aligned s -> logs_aligned s'.
Proof.
  unfold logs_aligned. intros (-> & -> & -> & ->). exact (fun H => H).
Qed.

Lemma logs_aligned_recorded (now tokens_used : Z) (s : APIRateLimiter) :
  logs_aligned s -> logs_aligned (recorded now tokens_used s).
Proof.
  intros (Hm & Hd). unfold logs_aligned, recorded; simpl.
  rewrite !map_app, Hm, Hd. split; reflexivity.
Qed.

Lemma run_calls_logs_aligned (cs : list call) (w : World) :
  logs_aligned (self w) -> logs_aligned (self (run_calls cs w)).
Proof.
  revert w. induction cs as [|c cs IH]; intros w Hinv; [exact Hinv|].
  simpl. apply IH. apply perform_keeps; try assumption.
  - apply logs_aligned_pruned.
  - apply logs_aligned_same_logs.
  - intros now tokens_used s _. apply logs_aligned_recorded.
Qed.

(** X9: after any history of calls on a fresh limiter, each request log
    carries exactly the stamps of the matching token log, in the same order;
    so the request count of a window is the number of its token entries, and
    the day-request log is never longer than [total_requests]. *)
Theorem request_and_token_logs_aligned
    (nm : string) (rpm tpm rpd tpd : Z) (clk : nat -> Z) (cs : list call) :
  let s := self (run_calls cs (world_of (__init__ nm rpm tpm rpd tpd) clk)) in
  (map fst (minute_tokens s) = minute_requests s
   /\ map fst (day_tokens s) = day_requests s)
  /\ (len (minute_requests s) = len (minute_tokens s)
      /\ len (day_requests s) = len (day_tokens s))
  /\ len (day_requests s) <= total_requests s.
Proof.
  cbv zeta.
  set (s := self (run_calls cs (world_of (__init__ nm rpm tpm rpd tpd) clk))).
  assert (Ha : logs_aligned s).
  { apply run_calls_logs_aligned. split; reflexivity. }
  destruct Ha as (Hm & Hd).
  assert (Hb : booked ([] ++ records_of cs) s).
  { apply run_calls_booked. unfold booked; simpl. repeat split. apply is_suffix_refl. }
  destruct Hb as (Hr & _ & Hs). simpl in Hr, Hs.
  split; [split; assumption|].
  split.
  - unfold len. rewrite <- Hm, <- Hd, !length_map. split; reflexivity.
  - rewrite Hr. apply is_suffix_length in Hs.
    unfold len in *. rewrite length_map in Hs. rewrite <- Hd, length_map. exact Hs.
Qed.

(** ** Bounds on the recommended wait *)

Ltac verdict_inj :=
  let H := fresh "H" in
  intros H;
  match type of H with
  | Ok (?c, ?w, ?k) = Ok (?c', ?w', ?k') =>
      assert (w = w') by congruence;
      assert (k = k') by congruence;
      clear H; subst w' k'
  end.

Lemma gates_wait_bound (now est : Z) (s : APIRateLimiter)
    (can : bool) (wait : Z) (kind : option string) :
  stamps_before now s ->
  gates now est s = Ok (can, wait, kind) ->
  wait <= 86400
  /\ (kind = Some "requests_per_minute"%string \/ kind = Some "tokens_per_minute"%string ->
      wait <= 60).
Proof.
  intros (B1 & B2 & B3 & B4). unfold gates, minute_window, day_window.
  destruct (len (minute_requests s) >=? requests_per_minute s).
  { destruct (minute_requests s) as [|t q]; [discriminate|].
    inversion B1; subst. verdict_inj. split; [lia | intros _; lia]. }
  destruct (sum_tokens (minute_tokens s) + est >? tokens_per_minute s).
  { destruct (minute_tokens s) as [|[t n] q]; unfold oldest_or; verdict_inj.
    - split; [lia | intros _; lia].
    - inversion B2; subst. cbn [fst] in *. split; [lia | intros _; lia]. }
  destruct (len (day_requests s) >=? requests_per_day s).
  { destruct (day_requests s) as [|t q]; [discriminate|].
    inversion B3; subst. verdict_inj.
    split; [lia | intros [?|?]; discriminate]. }
  destruct (sum_tokens (day_tokens s) + est >? tokens_per_day s).
  { destruct (day_tokens s) as [|[t n] q]; unfold oldest_or; verdict_inj.
    - split; [lia | intros [?|?]; discriminate].
    - inversion B4; subst. cbn [fst] in *. split; [lia | intros [?|?]; discriminate]. }
  verdict_inj. split; [lia | intros [?|?]; discriminate].
Qed.

Lemma on_time_stamps_before (w : World) (j : nat) (now : Z) :
  on_time w -> (ticks w <= j)%nat ->
  stamps_before (clock w j) (pruned now (self w)).
Proof.
  intros ((_ & H1) & (_ & H2) & (_ & H3) & (_ & H4)) Hj.
  unfold stamps_before, pruned; simpl.
  repeat apply conj;
    (eapply is_suffix_Forall; [apply drop_expired_suffix|]); auto.
Qed.

(** X10: under a clock that never runs backwards, after any history of
    calls on a fresh limiter, the wait that [check_rate_limit] recommends is
    at most 86400, and at most 60 when the limit hit is a per-minute one. *)
Theorem wait_bounded_by_window
    (nm : string) (rpm tpm rpd tpd : Z) (clk : nat -> Z) (cs : list call)
    (est : Z) (can : bool) (wait : Z) (kind : option string) :
  non_decreasing clk ->
  eval (check_rate_limit est) (run_calls cs (world_of (__init__ nm rpm tpm rpd tpd) clk))
  = Ok (can, wait, kind) ->
  wait <= 86400
  /\ (kind = Some "requests_per_minute"%string \/ kind = Some "tokens_per_minute"%string ->
      wait <= 60).
Proof.
  intros Hmono. rewrite check_rate_limit_eval.
  set (w := run_calls cs (world_of (__init__ nm rpm tpm rpd tpd) clk)).
  assert (Hot : on_time w).
  { apply run_calls_on_time; [exact Hmono|].
    unfold on_time, log_on_time, ascending; simpl.
    repeat split; constructor. }
  apply gates_wait_bound.
  apply on_time_stamps_before; [exact Hot | lia].
Qed.

Lemma wait_bounded_by_window_witness :
  45 <= 86400
  /\ (Some "requests_per_minute"%string = Some "requests_per_minute"%string
      \/ Some "requests_per_minute"%string = Some "tokens_per_minute"%string ->
      45 <= 60).
Proof.
  apply (wait_bounded_by_window "m" 1 1000 10000 1000000
           (fun n => 15 * Z.of_nat n / 2) [CallRecord 100] 50 false 45
           (Some "requests_per_minute"%string)).
  - intros i j Hij. apply Z.div_le_mono; lia.
  - reflexivity.
Defined.

(** ** Re-admission once the window has passed *)

(** X11: when every entry of the two minute logs is older than 60 at the
    pruning of an admission check, the check finds both minute logs empty; if
    moreover the per-minute request ceiling is positive, the estimate fits
    the per-minute token ceiling and the day quotas have room, the call is
    admitted. *)
Theorem expired_window_readmits (w : World) (est : Z) :
  let now := clock w (ticks w) in
  let s' := self (exec (check_rate_limit est) w) in
  Forall (fun t => now - t > 60) (minute_requests (self w)) ->
  Forall (fun e => now - fst e > 60) (minute_tokens (self w)) ->
  (minute_requests s' = [] /\ minute_tokens s' = [])
  /\ (0 < requests_per_minute (self w) ->
      est <= tokens_per_minute (self w) ->
      len (day_requests s') < requests_per_day s' ->
      sum_tokens (day_tokens s') + est <= tokens_per_day s' ->
      eval (check_rate_limit est) w = Ok (true, 0, None)).
Proof.
  intros now s' Hr Ht. subst s'. rewrite check_rate_limit_self, check_rate_limit_eval.
  fold now.
  assert (Er : minute_requests (pruned now (self w)) = []).
  { simpl. now apply drop_expired_all. }
  assert (Et : minute_tokens (pruned now (self w)) = []).
  { simpl. now apply (drop_expired_all fst). }
  split; [split; assumption|].
  intros Hrpm Hest Hdr Hdt.
  apply gates_admit_iff. unfold has_room.
  rewrite Er, Et. unfold len at 1. simpl.
  repeat split; try assumption; lia.
Qed.

Lemma expired_window_readmits_witness :
  eval (check_rate_limit 50)
    (exec (record_request 100)
       (exec (record_request 100)
          (world_of (__init__ "m" 2 1000 10000 1000000) (fun n => 100 * Z.of_nat n))))
  = Ok (true, 0, None).
Proof.
  set (w := exec (record_request 100)
              (exec (record_request 100)
                 (world_of (__init__ "m" 2 1000 10000 1000000) (fun n => 100 * Z.of_nat n)))).
  assert (Hr : Forall (fun t => clock w (ticks w) - t > 60) (minute_requests (self w))).
  { vm_compute. repeat (constructor; [reflexivity|]). constructor. }
  assert (Ht : Forall (fun e => clock w (ticks w) - fst e > 60) (minute_tokens (self w))).
  { vm_compute. repeat (constructor; [reflexivity|]). constructor. }
  destruct (expired_window_readmits w 50 Hr Ht) as [_ H].
  apply H; vm_compute; congruence.
Defined.
